(** * Sawmill management service: scheduling conflicts and stock consistency

    A shallow embedding of the service functions of the sawmill backend
    ([createOrder], [useSparePart], [createSchedule], [updateSchedule],
    [getCurrentMarketPrice] and the HTTP handler of [createOrder]) over an
    explicit model of the relational store, followed by the properties the
    specification states about them.

    Conventions of the embedding:
    - Python [int] is [Z]; [float] is a double, a primitive float; a
      [datetime] is an instant on the time line, also a [Z]; [str] is
      [string].
    - The store is a record of tables.  Tables addressed by their primary key
      are finite maps from the key; tables that are only appended to are
      lists in insertion order.
    - A service function is a computation in the monad [M]: it reads and
      writes the world (store, record of the store calls made, clock,
      random source) and either returns a value or raises an exception.  State changes made
      before an exception is raised stay in place, as in the source, which
      wraps nothing in a transaction. *)

From Stdlib Require Import ZArith Lia Ascii String.
From Stdlib Require Import PrimFloat SpecFloat FloatOps.
From stdpp Require Import gmap strings list fin_maps pretty.

Local Open Scope Z_scope.

Set Warnings "-register-all".

(** ** The store *)

Inductive ItemType := MATERIAL | PRODUCT | RESOURCE.

Inductive OrderStatus := PENDING | COMPLETED | CANCELLED.

Record InventoryItem := {
  item_name : string;
  item_quantity : Z;
  item_itemType : ItemType
}.

Record SalesOrder := {
  order_id : string;
  order_customerId : string;
  order_status : OrderStatus
}.

Record InventoryLog := {
  log_changeAmount : Z;
  log_timestamp : Z;
  log_inventoryItemId : string
}.

(** A row of the [Shift] table, with the columns the queries of
    [createSchedule] and [updateSchedule] name. *)
Record ShiftRow := {
  row_startTime : Z;
  row_endTime : Z;
  row_employeeId : string;
  row_Equipment : list string
}.

(** A row of the [MaintenanceLog] table, with the columns the query of
    [createSchedule] names; [ml_completionDate = None] is an open window. *)
Record MaintenanceLog := {
  ml_equipmentId : string;
  ml_startTime : Z;
  ml_endTime : Z;
  ml_completionDate : option Z
}.

Record Store := {
  InventoryItem_t : gmap string InventoryItem;
  SalesOrder_t : list SalesOrder;
  InventoryLog_t : list InventoryLog;
  Shift_t : gmap string ShiftRow;
  MaintenanceLog_t : gmap string MaintenanceLog;
  Equipment_t : gset string;
  Customer_t : gset string
}.

(** The calls made to the store, in the order they are issued. *)
Inductive DbOp :=
  | OpFindItem (id : string)
  | OpUpdateItem (id : string)
  | OpCreateOrder (customerId : string)
  | OpCreateLog (itemId : string)
  | OpFindShifts (employeeId : string) (lt gt : Z)
  | OpFindMaintenance (equipmentId : string) (lt gt : Z)
  | OpFindShift (id : string)
  | OpUpdateShift (id : string)
  | OpFindMaintenanceLog (id : string).

(** The world a request runs in: the store, the calls issued so far, the
    clock read by [datetime.now()], and the identifier generator of the store
    (the n-th row of a table gets [id_gen n]), and the bytes the operating
    system has still to hand out as randomness, read as one integer, the
    next byte lowest. *)
Record World := {
  db : Store;
  trace : list DbOp;
  clock : Z;
  id_gen : nat → string;
  urandom : Z
}.

Definition set_db (f : Store → Store) (w : World) : World :=
  {| db := f (db w); trace := trace w; clock := clock w; id_gen := id_gen w;
     urandom := urandom w |}.

Definition record_op (op : DbOp) (w : World) : World :=
  {| db := db w; trace := trace w ++ [op]; clock := clock w; id_gen := id_gen w;
     urandom := urandom w |}.

Definition set_urandom (f : Z → Z) (w : World) : World :=
  {| db := db w; trace := trace w; clock := clock w; id_gen := id_gen w;
     urandom := f (urandom w) |}.

Definition set_InventoryItem_t (t : gmap string InventoryItem) (s : Store) : Store :=
  {| InventoryItem_t := t; SalesOrder_t := SalesOrder_t s;
     InventoryLog_t := InventoryLog_t s; Shift_t := Shift_t s;
     MaintenanceLog_t := MaintenanceLog_t s; Equipment_t := Equipment_t s;
     Customer_t := Customer_t s |}.

Definition set_SalesOrder_t (t : list SalesOrder) (s : Store) : Store :=
  {| InventoryItem_t := InventoryItem_t s; SalesOrder_t := t;
     InventoryLog_t := InventoryLog_t s; Shift_t := Shift_t s;
     MaintenanceLog_t := MaintenanceLog_t s; Equipment_t := Equipment_t s;
     Customer_t := Customer_t s |}.

Definition set_InventoryLog_t (t : list InventoryLog) (s : Store) : Store :=
  {| InventoryItem_t := InventoryItem_t s; SalesOrder_t := SalesOrder_t s;
     InventoryLog_t := t; Shift_t := Shift_t s;
     MaintenanceLog_t := MaintenanceLog_t s; Equipment_t := Equipment_t s;
     Customer_t := Customer_t s |}.

Definition set_Shift_t (t : gmap string ShiftRow) (s : Store) : Store :=
  {| InventoryItem_t := InventoryItem_t s; SalesOrder_t := SalesOrder_t s;
     InventoryLog_t := InventoryLog_t s; Shift_t := t;
     MaintenanceLog_t := MaintenanceLog_t s; Equipment_t := Equipment_t s;
     Customer_t := Customer_t s |}.

Definition set_quantity (q : Z) (it : InventoryItem) : InventoryItem :=
  {| item_name := item_name it; item_quantity := q;
     item_itemType := item_itemType it |}.

(** ** The monad of service functions *)

Inductive exn :=
  | ValueError (msg : string)
  | ValidationError (model field : string)
  | AttributeError (msg : string)
  | KeyError (key : string)
  | TypeError (msg : string)
  | HTTPError (msg : string)
  | JSONDecodeError (msg : string)
  | OverflowError (msg : string)
  | StoreError (msg : string).

Inductive outcome (A : Type) :=
  | Ret (a : A)
  | Raise (e : exn).
Arguments Ret {A} a.
Arguments Raise {A} e.

(** A computation over a state [S]: it returns or raises, and leaves a
    state behind either way. *)
Definition ST (S A : Type) : Type := S → outcome A * S.

#[global] Instance ST_ret {S} : MRet (ST S) := λ A a s, (Ret a, s).

#[global] Instance ST_bind {S} : MBind (ST S) := λ A B k c s,
  match c s with
  | (Ret a, s') => k a s'
  | (Raise e, s') => (Raise e, s')
  end.

Definition raise {S A} (e : exn) : ST S A := λ s, (Raise e, s).

(** [try: c except Exception as e: handler e] *)
Definition try_except {S A} (c : ST S A) (handler : exn → ST S A) : ST S A :=
  λ s,
    match c s with
    | (Ret a, s') => (Ret a, s')
    | (Raise e, s') => handler e s'
    end.

(** Service functions run over the world. *)
Abbreviation M := (ST World).

(** [for x in l: body] where the body neither breaks nor returns. *)
Fixpoint for_each {A} (l : list A) (body : A → M unit) : M unit :=
  match l with
  | [] => mret tt
  | x :: l' => body x ;; for_each l' body
  end.

(** [for x in l: body] where the body may [return r] from the enclosing
    function ([Some r]); [None] is falling out of the loop. *)
Fixpoint for_return {A R} (l : list A) (body : A → M (option R)) : M (option R) :=
  match l with
  | [] => mret None
  | x :: l' =>
      r ← body x;
      match r with
      | Some v => mret (Some v)
      | None => for_return l' body
      end
  end.

(** [for x in l: body] where the body updates local variables [S]. *)
Fixpoint for_fold {A S} (l : list A) (body : A → S → M S) (s : S) : M S :=
  match l with
  | [] => mret s
  | x :: l' => s' ← body x s; for_fold l' body s'
  end.

(** ** Store calls (the Prisma client) *)

(** The interval filter of the two [find_many] queries of [createSchedule]:
    [{"startTime": {"lt": lt}}, {"endTime": {"gt": gt}}] on a row that starts
    at [s] and ends at [e]. *)
Definition overlaps (lt gt s e : Z) : Prop := s < lt ∧ gt < e.

#[global] Instance overlaps_dec lt gt s e : Decision (overlaps lt gt s e).
Proof. unfold overlaps. apply _. Defined.

Module prisma.

(** [InventoryItem.prisma().find_unique(where={"id": id})] *)
Definition InventoryItem_find_unique (id : string) : M (option InventoryItem) :=
  λ w, (Ret (InventoryItem_t (db w) !! id), record_op (OpFindItem id) w).

(** [InventoryItem.prisma().update(where={"id": id}, data={"quantity": f old})];
    the client returns [None] when no row has the key. *)
Definition InventoryItem_update (id : string) (f : Z → Z) : M (option InventoryItem) :=
  λ w,
    match InventoryItem_t (db w) !! id with
    | Some it =>
        let it' := set_quantity (f (item_quantity it)) it in
        (Ret (Some it'),
         record_op (OpUpdateItem id)
           (set_db (set_InventoryItem_t (<[id := it']> (InventoryItem_t (db w)))) w))
    | None => (Ret None, record_op (OpUpdateItem id) w)
    end.

(** [SalesOrder.prisma().create(data={"customerId": c, "status": st})]; the
    store assigns the identifier and rejects a customer it does not know. *)
Definition SalesOrder_create (customerId : string) (st : OrderStatus) : M SalesOrder :=
  λ w,
    if decide (customerId ∈ Customer_t (db w)) then
      let row := {| order_id := id_gen w (length (SalesOrder_t (db w)));
                    order_customerId := customerId; order_status := st |} in
      (Ret row,
       record_op (OpCreateOrder customerId)
         (set_db (set_SalesOrder_t (SalesOrder_t (db w) ++ [row])) w))
    else
      (Raise (StoreError "foreign key constraint failed on customerId"),
       record_op (OpCreateOrder customerId) w).

(** [InventoryLog.prisma().create(data={...})] *)
Definition InventoryLog_create (changeAmount timestamp : Z) (itemId : string)
  : M InventoryLog :=
  λ w,
    let row := {| log_changeAmount := changeAmount; log_timestamp := timestamp;
                  log_inventoryItemId := itemId |} in
    (Ret row,
     record_op (OpCreateLog itemId)
       (set_db (set_InventoryLog_t (InventoryLog_t (db w) ++ [row])) w)).

(** [MaintenanceLog.prisma().find_unique(where={"id": id})] *)
Definition MaintenanceLog_find_unique (id : string) : M (option MaintenanceLog) :=
  λ w, (Ret (MaintenanceLog_t (db w) !! id), record_op (OpFindMaintenanceLog id) w).

(** [Shift.prisma().find_unique(where={"id": id})] *)
Definition Shift_find_unique (id : string) : M (option ShiftRow) :=
  λ w, (Ret (Shift_t (db w) !! id), record_op (OpFindShift id) w).

Definition shift_matches (lt gt : Z) (employeeId : string) (r : ShiftRow) : Prop :=
  overlaps lt gt (row_startTime r) (row_endTime r) ∧ row_employeeId r = employeeId.

#[global] Instance shift_matches_dec lt gt e r : Decision (shift_matches lt gt e r).
Proof. unfold shift_matches. apply _. Defined.

(** [Shift.prisma().find_many(where={"AND": [{"startTime": {"lt": lt}},
    {"endTime": {"gt": gt}}, {"employeeId": employeeId}]})] *)
Definition Shift_find_many (lt gt : Z) (employeeId : string) : M (list ShiftRow) :=
  λ w,
    (Ret (filter (shift_matches lt gt employeeId) (map_to_list (Shift_t (db w))).*2),
     record_op (OpFindShifts employeeId lt gt) w).

Definition maintenance_matches (lt gt : Z) (equipmentId : string)
    (r : MaintenanceLog) : Prop :=
  overlaps lt gt (ml_startTime r) (ml_endTime r) ∧
  ml_equipmentId r = equipmentId ∧ ml_completionDate r = None.

#[global] Instance maintenance_matches_dec lt gt e r :
  Decision (maintenance_matches lt gt e r).
Proof. unfold maintenance_matches. apply _. Defined.

(** [MaintenanceLog.prisma().find_many(where={"AND": [{"startTime": {"lt": lt}},
    {"endTime": {"gt": gt}}, {"equipmentId": equipmentId,
    "completionDate": None}]})] *)
Definition MaintenanceLog_find_many (lt gt : Z) (equipmentId : string)
  : M (list MaintenanceLog) :=
  λ w,
    (Ret (filter (maintenance_matches lt gt equipmentId)
            (map_to_list (MaintenanceLog_t (db w))).*2),
     record_op (OpFindMaintenance equipmentId lt gt) w).

(** [Shift.prisma().update(where={"id": id}, data={"startTime": s,
    "endTime": e, "Equipment": {"connect": {"id": equipmentId}}})]; the
    client returns [None] when a record the update depends on (the row itself
    or the equipment to connect) is not found. *)
Definition Shift_update (id : string) (s e : Z) (equipmentId : string)
  : M (option ShiftRow) :=
  λ w,
    match Shift_t (db w) !! id with
    | Some r =>
        if decide (equipmentId ∈ Equipment_t (db w)) then
          let r' := {| row_startTime := s; row_endTime := e;
                       row_employeeId := row_employeeId r;
                       row_Equipment := row_Equipment r ++ [equipmentId] |} in
          (Ret (Some r'),
           record_op (OpUpdateShift id)
             (set_db (set_Shift_t (<[id := r']> (Shift_t (db w)))) w))
        else (Ret None, record_op (OpUpdateShift id) w)
    | None => (Ret None, record_op (OpUpdateShift id) w)
    end.

End prisma.

(** [datetime.now()] *)
Definition datetime_now : M Z := λ w, (Ret (clock w), w).

(** ** createOrder_service.py *)

Module createOrder_service.

Record OrderItem := {
  inventoryItemId : string;
  quantity : Z
}.

Record CreateOrderResponse := {
  orderId : string
}.

Definition not_enough_stock (id : string) : string :=
  "Not enough stock for item ID " +:+ id.

(** The body of the first loop over [items]: the stock check. *)
Definition validate_item (item : OrderItem) : M unit :=
  inventory_item ← prisma.InventoryItem_find_unique (inventoryItemId item);
  match inventory_item with
  | None => raise (ValueError (not_enough_stock (inventoryItemId item)))
  | Some it =>
      if bool_decide (item_quantity it < quantity item)
      then raise (ValueError (not_enough_stock (inventoryItemId item)))
      else mret tt
  end.

(** The body of the second loop over [items]: the decrement. *)
Definition decrement_item (item : OrderItem) : M unit :=
  prisma.InventoryItem_update (inventoryItemId item) (λ q, q - quantity item) ;;
  mret tt.

Definition createOrder (customerId : string) (items : list OrderItem)
  : M CreateOrderResponse :=
  for_each items validate_item ;;
  for_each items decrement_item ;;
  sales_order ← prisma.SalesOrder_create customerId PENDING;
  mret {| orderId := order_id sales_order |}.

End createOrder_service.

(** ** server.py: the handler of [POST /orders] *)

Module server.

(** What the handlers hand to [Response] as [content]: nothing, bytes, a
    string, or the dictionary that [jsonable_encoder] returns for a
    dictionary of strings. *)
Inductive Content :=
  | ContentNone
  | ContentBytes (b : string)
  | ContentStr (s : string)
  | ContentDict (d : list (string * string)).

(** A constructed [fastapi.responses.Response]: the rendered body, the status
    and the media type. *)
Record Response := {
  body : string;
  status_code : Z;
  media_type : string
}.

(** [Response.render]: [None] gives the empty body, bytes are taken as they
    are, and everything else is sent [encode], a method a string has and a
    dictionary has not. *)
Definition render (content : Content) : M string :=
  match content with
  | ContentNone => mret ""
  | ContentBytes b => mret b
  | ContentStr s => mret s
  | ContentDict _ => raise (AttributeError "'dict' object has no attribute 'encode'")
  end.

(** [Response(content=..., status_code=..., media_type=...)]: the constructor
    renders the content into the body. *)
Definition Response_new (content : Content) (status_code : Z) (media_type : string)
  : M Response :=
  body ← render content;
  mret {| body := body; status_code := status_code; media_type := media_type |}.

(** [jsonable_encoder(res)] for a dictionary of strings: the dictionary. *)
Definition jsonable_encoder (res : list (string * string)) : Content :=
  ContentDict res.

(** [str(e)] *)
Definition str (e : exn) : string :=
  match e with
  | ValueError msg => msg
  | ValidationError model field =>
      "1 validation error for " +:+ model +:+ " " +:+ field
  | AttributeError msg => msg
  | KeyError key => "'" +:+ key +:+ "'"
  | TypeError msg => msg
  | HTTPError msg => msg
  | JSONDecodeError msg => msg
  | OverflowError msg => msg
  | StoreError msg => msg
  end.


End server.

(** ** useSparePart_service.py *)

Module useSparePart_service.

Record PartUsage := {
  partId : string;
  quantityUsed : Z
}.

Record InventoryState := {
  state_partId : string;
  remainingQuantity : Z
}.

Record MaintenancePartsLogResponse := {
  success : bool;
  updatedRecord : MaintenanceLog;
  remainingInventory : list InventoryState
}.

(** The constructor call [MaintenancePartsLogResponse(success=...,
    updatedRecord=..., remainingInventory=...)].  The field [updatedRecord]
    is declared with the model type, not as optional, so the validation the
    base model runs on construction rejects [None]. *)
Definition MaintenancePartsLogResponse_new (success : bool)
    (updatedRecord : option MaintenanceLog)
    (remainingInventory : list InventoryState) : M MaintenancePartsLogResponse :=
  match updatedRecord with
  | Some r => mret {| success := success; updatedRecord := r;
                      remainingInventory := remainingInventory |}
  | None => raise (ValidationError "MaintenancePartsLogResponse" "updatedRecord")
  end.

(** The body of the loop over [parts]; the local variables it updates are
    [remaining_inventory] and [all_success]. *)
Definition use_part (part : PartUsage) (locals : list InventoryState * bool)
  : M (list InventoryState * bool) :=
  let '(remaining_inventory, all_success) := locals in
  inventory_item ← prisma.InventoryItem_find_unique (partId part);
  match inventory_item with
  | Some it =>
      if bool_decide (item_quantity it >= quantityUsed part) then
        let new_quantity := item_quantity it - quantityUsed part in
        prisma.InventoryItem_update (partId part) (λ _, new_quantity) ;;
        let remaining_inventory :=
          remaining_inventory ++
            [{| state_partId := partId part; remainingQuantity := new_quantity |}] in
        now ← datetime_now;
        prisma.InventoryLog_create (- quantityUsed part) now (partId part) ;;
        mret (remaining_inventory, all_success)
      else mret (remaining_inventory, false)
  | None => mret (remaining_inventory, false)
  end.

Definition useSparePart (recordId : string) (parts : list PartUsage)
  : M MaintenancePartsLogResponse :=
  maintenance_record ← prisma.MaintenanceLog_find_unique recordId;
  match maintenance_record with
  | None => MaintenancePartsLogResponse_new false None []
  | Some _ =>
      locals ← for_fold parts use_part ([], true);
      let '(remaining_inventory, all_success) := locals in
      updated_maintenance_record ← prisma.MaintenanceLog_find_unique recordId;
      MaintenancePartsLogResponse_new all_success updated_maintenance_record
        remaining_inventory
  end.

End useSparePart_service.

(** ** The [os] and [uuid] modules of the Python library: [str(uuid.uuid4())] *)

Module os.

(** [os.urandom(n)]: the next [n] bytes of the random source, which moves on
    by as many. *)
Definition urandom (n : Z) : M Z := λ w,
  (Ret (Z.land (urandom w) (Z.ones (8 * n))),
   set_urandom (λ source, Z.shiftr source (8 * n)) w).

End os.

Module uuid.

(** [UUID(bytes=os.urandom(16), version=4).int]: sixteen random bytes with the
    variant and version bits forced. *)
Definition uuid4_int (random : Z) : Z :=
  let int := Z.land random (Z.ones 128) in
  let int := Z.ldiff int (Z.shiftl 0xc000 48) in
  let int := Z.lor int (Z.shiftl 0x8000 48) in
  let int := Z.ldiff int (Z.shiftl 0xf000 64) in
  Z.lor int (Z.shiftl 4 76).

Definition hex_digit (d : Z) : ascii :=
  nth (Z.to_nat d)
    ["0"; "1"; "2"; "3"; "4"; "5"; "6"; "7"; "8"; "9"; "a"; "b"; "c"; "d"; "e"; "f"]%char
    "0"%char.

(** ['%0nx' % v] for a [v] of at most [n] hexadecimal digits, as a list of
    characters, most significant first. *)
Fixpoint hex (n : nat) (v : Z) : list ascii :=
  match n with
  | O => []
  | S k => hex k (v / 16) ++ [hex_digit (v mod 16)]
  end.

(** [UUID.__str__]: the 32 digits grouped 8-4-4-4-12. *)
Definition uuid_str (int : Z) : string :=
  let h := hex 32 int in
  let dash := ["-"%char] in
  string_of_list_ascii
    (take 8 h ++ dash ++ take 4 (drop 8 h) ++ dash ++ take 4 (drop 12 h) ++
     dash ++ take 4 (drop 16 h) ++ dash ++ drop 20 h).

(** [str(uuid.uuid4())] *)
Definition uuid4 : M string :=
  random ← os.urandom 16;
  mret (uuid_str (uuid4_int random)).

End uuid.

(** ** createSchedule_service.py *)

Module createSchedule_service.

Record ShiftDetail := {
  start_time : Z;
  end_time : Z;
  employee_id : string
}.

Record EquipmentUsage := {
  equipment_id : string;
  usage_start_time : Z;
  usage_end_time : Z
}.

Record ScheduleCreationResponse := {
  schedule_id : string;
  shifts : list ShiftDetail;
  used_equipment : list EquipmentUsage;
  creation_status : string
}.

Definition failed (status : string) : ScheduleCreationResponse :=
  {| schedule_id := ""; shifts := []; used_equipment := [];
     creation_status := status |}.

(** The body of the loop over [shift_details]. *)
Definition check_shift (shift : ShiftDetail) : M (option ScheduleCreationResponse) :=
  overlap_shifts ← prisma.Shift_find_many (end_time shift) (start_time shift)
                     (employee_id shift);
  match overlap_shifts with
  | [] => mret None
  | _ :: _ => mret (Some (failed "Failed due to shift conflict"))
  end.

(** The body of the loop over [equipment_usage]. *)
Definition check_equipment (equipment : EquipmentUsage)
  : M (option ScheduleCreationResponse) :=
  overlap_equipment ← prisma.MaintenanceLog_find_many (usage_end_time equipment)
                        (usage_start_time equipment) (equipment_id equipment);
  match overlap_equipment with
  | [] => mret None
  | _ :: _ => mret (Some (failed "Failed due to equipment maintenance conflict"))
  end.

Definition createSchedule (shift_details : list ShiftDetail)
    (equipment_usage : list EquipmentUsage) : M ScheduleCreationResponse :=
  returned ← for_return shift_details check_shift;
  match returned with
  | Some response => mret response
  | None =>
      returned ← for_return equipment_usage check_equipment;
      match returned with
      | Some response => mret response
      | None =>
          schedule_id ← uuid.uuid4;
          mret {| schedule_id := schedule_id; shifts := shift_details;
                  used_equipment := equipment_usage;
                  creation_status := "Success" |}
      end
  end.

End createSchedule_service.

(** ** updateSchedule_service.py *)

Module updateSchedule_service.

Record Shift := {
  startTime : Z;
  endTime : Z;
  employeeId : string;
  equipmentId : list string
}.

Record ScheduleUpdateResponse := {
  success : bool;
  message : string;
  updatedSchedule : Shift
}.

(** The constructor call [ScheduleUpdateResponse(success=..., message=...,
    updatedSchedule=...)].  The field [updatedSchedule] is declared [Shift],
    not optional, so the validation on construction rejects [None]. *)
Definition ScheduleUpdateResponse_new (success : bool) (message : string)
    (updatedSchedule : option Shift) : M ScheduleUpdateResponse :=
  match updatedSchedule with
  | Some s => mret {| success := success; message := message;
                      updatedSchedule := s |}
  | None => raise (ValidationError "ScheduleUpdateResponse" "updatedSchedule")
  end.

Definition updateSchedule (scheduleId : string) (shiftStartTime shiftEndTime : Z)
    (equipmentId : string) (operationPlan : string) : M ScheduleUpdateResponse :=
  shift_record ← prisma.Shift_find_unique scheduleId;
  match shift_record with
  | None =>
      ScheduleUpdateResponse_new false ("No shift found with ID " +:+ scheduleId)
        None
  | Some _ =>
      updated_shift ← prisma.Shift_update scheduleId shiftStartTime shiftEndTime
                        equipmentId;
      match updated_shift with
      | None => raise (AttributeError "'NoneType' object has no attribute 'startTime'")
      | Some u =>
          let updated_shift_details :=
            {| startTime := row_startTime u; endTime := row_endTime u;
               employeeId := row_employeeId u; equipmentId := [equipmentId] |} in
          ScheduleUpdateResponse_new true "Shift was successfully updated."
            (Some updated_shift_details)
      end
  end.

End updateSchedule_service.

(** ** getCurrentMarketPrice_service.py *)

Module getCurrentMarketPrice_service.

(** A decoded response body, as [resp.json()] hands it over: a number
    written as an integer is an [int], a number with a fraction or an
    exponent is a [float], a double. *)
Inductive json :=
  | JNull
  | JBool (b : bool)
  | JInt (n : Z)
  | JFloat (x : PrimFloat.float)
  | JString (s : string)
  | JArray (l : list json)
  | JObject (members : list (string * json)).

(** What [await client.get(url)] comes back with: an exception of the
    transport, or a response with a status code and a body ([None] when the
    body does not decode as JSON). *)
Inductive GetResult :=
  | TransportError (msg : string)
  | HttpResponse (status_code : Z) (body : option json).

Record GetMarketPriceRequest : Set := { }.

Record MarketPriceResponse := {
  market_price : PrimFloat.float;
  last_update : Z
}.

(** The local variables [market_price] and [last_update], which the [try]
    block assigns to and the [return] statement reads. *)
Definition locals : Type := PrimFloat.float * Z.

(** A decoded object keeps the last of several members with one key. *)
Fixpoint dict_get (key : string) (members : list (string * json)) : option json :=
  match members with
  | [] => None
  | (k, v) :: rest =>
      match dict_get key rest with
      | Some v' => Some v'
      | None => if decide (k = key) then Some v else None
      end
  end.

(** [data[key]] *)
Definition subscript (data : json) (key : string) : ST locals json :=
  match data with
  | JObject members =>
      match dict_get key members with
      | Some v => mret v
      | None => raise (KeyError key)
      end
  | JArray _ => raise (TypeError "list indices must be integers or slices, not str")
  | JString _ => raise (TypeError "string indices must be integers")
  | _ => raise (TypeError "object is not subscriptable")
  end.

(** The conversion of an [int] to a [float]: the nearest double, a tie going
    to the even one, and none when the integer lies beyond the doubles. *)
Definition double_of_int (n : Z) : option PrimFloat.float :=
  match binary_normalize prec emax n 0 false with
  | S754_infinity _ => None
  | x => Some (SF2Prim x)
  end.

Section Feed.

(** The price feed as seen through [httpx.AsyncClient().get], and the two
    string parsers of the Python library. *)
Variable client_get : string → GetResult.
Variable float_of_str : string → option PrimFloat.float.
Variable fromisoformat_str : string → option Z.

(** [resp.raise_for_status()] *)
Definition raise_for_status (status_code : Z) : ST locals unit :=
  if bool_decide (200 ≤ status_code ≤ 299) then mret tt
  else raise (HTTPError "status code is not a success").

(** [resp.json()] *)
Definition resp_json (body : option json) : ST locals json :=
  match body with
  | Some data => mret data
  | None => raise (JSONDecodeError "Expecting value")
  end.

(** [float(v)]: a [float] is returned as it is, an [int] (and a [bool],
    which is one) is converted, a string is parsed. *)
Definition float (v : json) : ST locals PrimFloat.float :=
  match v with
  | JFloat x => mret x
  | JInt n =>
      match double_of_int n with
      | Some x => mret x
      | None => raise (OverflowError "int too large to convert to float")
      end
  | JBool b => mret (if b then 1%float else 0%float)
  | JString s =>
      match float_of_str s with
      | Some x => mret x
      | None => raise (ValueError "could not convert string to float")
      end
  | _ => raise (TypeError "float() argument must be a string or a real number")
  end.

(** [datetime.fromisoformat(v)] *)
Definition fromisoformat (v : json) : ST locals Z :=
  match v with
  | JString s =>
      match fromisoformat_str s with
      | Some t => mret t
      | None => raise (ValueError "Invalid isoformat string")
      end
  | _ => raise (TypeError "fromisoformat: argument must be str")
  end.

Definition assign_market_price (x : PrimFloat.float) : ST locals unit :=
  λ l, (Ret tt, (x, l.2)).

Definition assign_last_update (t : Z) : ST locals unit :=
  λ l, (Ret tt, (l.1, t)).

(** The body of the [try] block. *)
Definition try_block (url : string) : ST locals unit :=
  match client_get url with
  | TransportError msg => raise (HTTPError msg)
  | HttpResponse status_code body =>
      raise_for_status status_code ;;
      data ← resp_json body;
      v ← subscript data "market_price";
      x ← float v;
      assign_market_price x ;;
      v ← subscript data "last_update";
      t ← fromisoformat v;
      assign_last_update t
  end.

Definition getCurrentMarketPrice (request : GetMarketPriceRequest)
  : M MarketPriceResponse :=
  let url := "https://api.example.com/marketprice/boardfoot" in
  now ← datetime_now;
  let '(_, (market_price, last_update)) :=
    try_except (try_block url) (λ e, mret tt) (0%float, now) in
  mret {| market_price := market_price; last_update := last_update |}.

End Feed.

End getCurrentMarketPrice_service.

(** ** Vocabulary of the specification *)

Import createOrder_service useSparePart_service createSchedule_service.

(** A line item is covered by the stock on hand: the item exists and its
    quantity is at least the quantity requested. *)
Definition in_stock (inv : gmap string InventoryItem) (item : OrderItem) : Prop :=
  match inv !! inventoryItemId item with
  | Some it => quantity item ≤ item_quantity it
  | None => False
  end.

#[global] Instance in_stock_dec inv item : Decision (in_stock inv item).
Proof. unfold in_stock. destruct (inv !! inventoryItemId item); apply _. Defined.

(** Open-interval overlap of a requested shift with a stored shift of the
    same employee: [start_a < end_b] and [end_a > start_b]. *)
Definition shift_conflict (s : Store) (shift : ShiftDetail) : Prop :=
  ∃ id r, Shift_t s !! id = Some r ∧ row_employeeId r = employee_id shift ∧
          row_startTime r < end_time shift ∧ start_time shift < row_endTime r.

(** Overlap of a requested equipment usage with an open maintenance window
    of the same equipment. *)
Definition equipment_conflict (s : Store) (usage : EquipmentUsage) : Prop :=
  ∃ id r, MaintenanceLog_t s !! id = Some r ∧
          ml_equipmentId r = equipment_id usage ∧ ml_completionDate r = None ∧
          ml_startTime r < usage_end_time usage ∧
          usage_start_time usage < ml_endTime r.

(** The store call [createSchedule] issues for a shift, and for a usage. *)
Definition shift_query (shift : ShiftDetail) : DbOp :=
  OpFindShifts (employee_id shift) (end_time shift) (start_time shift).

Definition maintenance_query (usage : EquipmentUsage) : DbOp :=
  OpFindMaintenance (equipment_id usage) (usage_end_time usage)
    (usage_start_time usage).

(** Best-effort processing of a list of part usages, in the words of the
    specification: starting from inventory [inv], each part in input order is
    either used (it exists with a quantity of at least the usage: the quantity
    is decremented, a remaining-quantity entry and one log entry with the
    negated usage are produced) or skipped (nothing changes).  The relation
    yields the final inventory, the remaining-quantity entries and the log
    entries, in order. *)
Inductive part_steps (now : Z) : gmap string InventoryItem → list PartUsage →
    gmap string InventoryItem → list InventoryState → list InventoryLog → Prop :=
  | steps_done inv : part_steps now inv [] inv [] []
  | steps_use inv part it parts inv' rem logs :
      inv !! partId part = Some it →
      quantityUsed part ≤ item_quantity it →
      part_steps now
        (<[partId part := set_quantity (item_quantity it - quantityUsed part) it]> inv)
        parts inv' rem logs →
      part_steps now inv (part :: parts) inv'
        ({| state_partId := partId part;
            remainingQuantity := item_quantity it - quantityUsed part |} :: rem)
        ({| log_changeAmount := - quantityUsed part; log_timestamp := now;
            log_inventoryItemId := partId part |} :: logs)
  | steps_skip inv part parts inv' rem logs :
      (∀ it, inv !! partId part = Some it → item_quantity it < quantityUsed part) →
      part_steps now inv parts inv' rem logs →
      part_steps now inv (part :: parts) inv' rem logs.

(** The claim of best-effort processing as the specification words it, for
    one call: whatever the maintenance record, the parts are processed as
    above, every log entry carries a negative amount, and the response lists
    the decremented parts with a flag that holds exactly when none was
    skipped. *)
Definition best_effort_as_stated (w : World) (recordId : string)
    (parts : list PartUsage) : Prop :=
  ∃ inv' rem logs r,
    part_steps (clock w) (InventoryItem_t (db w)) parts inv' rem logs ∧
    Forall (λ l, log_changeAmount l < 0) logs ∧
    (useSparePart recordId parts w).1 = Ret r ∧
    remainingInventory r = rem ∧
    (useSparePart_service.success r = true ↔ length rem = length parts) ∧
    InventoryItem_t (db (useSparePart recordId parts w).2) = inv' ∧
    InventoryLog_t (db (useSparePart recordId parts w).2) =
      InventoryLog_t (db w) ++ logs.

(** Replaying a log entry on an inventory: the quantity of the item the
    entry belongs to moves by the signed amount of the entry. *)
Definition apply_log (inv : gmap string InventoryItem) (l : InventoryLog)
  : gmap string InventoryItem :=
  alter (λ it, set_quantity (item_quantity it + log_changeAmount l) it)
    (log_inventoryItemId l) inv.

Definition replay (logs : list InventoryLog) (inv : gmap string InventoryItem)
  : gmap string InventoryItem :=
  foldl apply_log inv logs.

(** The items written by the update calls of a trace, in order. *)
Definition updates_of (ops : list DbOp) : list string :=
  omap (λ op, match op with OpUpdateItem id => Some id | _ => None end) ops.

(** All quantities of an inventory are non-negative. *)
Definition quantities_nonneg (inv : gmap string InventoryItem) : Prop :=
  map_Forall (λ _ it, 0 ≤ item_quantity it) inv.

(** ** Sample worlds *)

(** The bits of a draw of sixteen bytes that [uuid4] leaves as drawn: all
    128 but the two of the variant and the four of the version. *)
Definition free_bit (i : Z) : bool :=
  bool_decide (0 ≤ i < 128) && negb (bool_decide (62 ≤ i ≤ 63)) &&
  negb (bool_decide (76 ≤ i ≤ 79)).

(** Two states of the random source whose next sixteen bytes agree on these
    122 bits. *)
Definition same_draw (r1 r2 : Z) : Prop :=
  ∀ i, free_bit i = true → Z.testbit r1 i = Z.testbit r2 i.

Definition world_of (s : Store) : World :=
  {| db := s; trace := []; clock := 1700000000;
     id_gen := λ n, "order-" +:+ pretty n; urandom := 0 |}.

(** The same world with a given state of the random source. *)
Definition seeded_world (s : Store) (source : Z) : World :=
  set_urandom (λ _, source) (world_of s).

Definition item (name : string) (q : Z) : InventoryItem :=
  {| item_name := name; item_quantity := q; item_itemType := MATERIAL |}.

(** Two items in stock, one known customer, one maintenance record. *)
Definition stock_store : Store :=
  {| InventoryItem_t := {[ "A" := item "oak board" 5; "B" := item "saw blade" 1 ]};
     SalesOrder_t := []; InventoryLog_t := [];
     Shift_t := ∅;
     MaintenanceLog_t :=
       {[ "rec1" := {| ml_equipmentId := "saw1"; ml_startTime := 0;
                       ml_endTime := 10; ml_completionDate := Some 10 |} ]};
     Equipment_t := {[ "saw1" ]}; Customer_t := {[ "cust1" ]} |}.

(** Employee [E] works 8-16 (shift [s1]) and 16-20 (shift [s2]); the saw has
    an open maintenance window 30-40. *)
Definition roster_store : Store :=
  {| InventoryItem_t := ∅; SalesOrder_t := []; InventoryLog_t := [];
     Shift_t :=
       {[ "s1" := {| row_startTime := 8; row_endTime := 16;
                     row_employeeId := "E"; row_Equipment := [] |};
          "s2" := {| row_startTime := 16; row_endTime := 20;
                     row_employeeId := "E"; row_Equipment := [] |} ]};
     MaintenanceLog_t :=
       {[ "m1" := {| ml_equipmentId := "saw1"; ml_startTime := 30;
                     ml_endTime := 40; ml_completionDate := None |} ]};
     Equipment_t := {[ "saw1" ]}; Customer_t := ∅ |}.

(** ** Further store calls *)

Module prisma_calls.

(** [InventoryItem.prisma().update(where={"id": id}, data={"name": name,
    "quantity": quantity, "itemType": itemType})]; [None] when no row has the
    key. *)
Definition InventoryItem_update_data (id name : string) (quantity : Z)
    (itemType : ItemType) : M (option InventoryItem) :=
  λ w,
    match InventoryItem_t (db w) !! id with
    | Some _ =>
        let it' := {| item_name := name; item_quantity := quantity;
                      item_itemType := itemType |} in
        (Ret (Some it'),
         record_op (OpUpdateItem id)
           (set_db (set_InventoryItem_t (<[id := it']> (InventoryItem_t (db w)))) w))
    | None => (Ret None, record_op (OpUpdateItem id) w)
    end.

(** The rows of the log that belong to an item, each with the identifier the
    store gave it (by its position in the table), in insertion order. *)
Definition logs_of (gen : nat → string) (itemId : string) (logs : list InventoryLog)
  : list (string * InventoryLog) :=
  filter (λ il, log_inventoryItemId il.2 = itemId) (imap (λ i l, (gen i, l)) logs).

(** [InventoryItem.prisma().find_unique(where={"id": id},
    include={"Logs": True})]: the row together with its log entries. *)
Definition InventoryItem_find_unique_with_logs (id : string)
  : M (option (InventoryItem * list (string * InventoryLog))) :=
  λ w,
    (Ret ((λ it, (it, logs_of (id_gen w) id (InventoryLog_t (db w)))) <$>
            InventoryItem_t (db w) !! id),
     record_op (OpFindItem id) w).

End prisma_calls.

(** ** deleteInventoryItem_service.py *)

Module deleteInventoryItem_service.

Record DeleteInventoryItemResponse := {
  success : bool;
  message : string
}.

Definition deleteInventoryItem (itemId : string) : M DeleteInventoryItemResponse :=
  try_except
    (inventory_item ← prisma.InventoryItem_find_unique itemId;
     match inventory_item with
     | Some _ =>
         updated_inventory_item ← prisma.InventoryItem_update itemId (λ _, 0);
         mret {| success := true;
                 message := "Inventory item '" +:+ itemId +:+
                            "' was successfully marked as inactive." |}
     | None =>
         mret {| success := false;
                 message := "Inventory item with ID '" +:+ itemId +:+ "' not found." |}
     end)
    (λ e, mret {| success := false; message := server.str e |}).

End deleteInventoryItem_service.

(** ** updateInventoryItem_service.py *)

Module updateInventoryItem_service.

(** The model [InventoryItem] of this file (the row of the store has the
    same name there). *)
Record InventoryItemModel := {
  id : string;
  name : string;
  quantity : Z;
  itemType : ItemType
}.

Record UpdateInventoryItemResponse := {
  success : bool;
  updatedItem : InventoryItemModel
}.

(** The constructor call [UpdateInventoryItemResponse(success=...,
    updatedItem=...)]; the field [updatedItem] is declared with the model
    type, not as optional, so validation on construction rejects [None]. *)
Definition UpdateInventoryItemResponse_new (success : bool)
    (updatedItem : option InventoryItemModel) : M UpdateInventoryItemResponse :=
  match updatedItem with
  | Some it => mret {| success := success; updatedItem := it |}
  | None => raise (ValidationError "UpdateInventoryItemResponse" "updatedItem")
  end.

Definition updateInventoryItem (itemId name : string) (quantity : Z)
    (itemType : ItemType) : M UpdateInventoryItemResponse :=
  inventory_item ← prisma.InventoryItem_find_unique itemId;
  match inventory_item with
  | Some _ =>
      updated_inventory_item ← prisma_calls.InventoryItem_update_data itemId name
                                 quantity itemType;
      match updated_inventory_item with
      | None => raise (AttributeError "'NoneType' object has no attribute 'dict'")
      | Some u =>
          UpdateInventoryItemResponse_new true
            (Some {| id := itemId; name := item_name u;
                     quantity := item_quantity u; itemType := item_itemType u |})
      end
  | None => UpdateInventoryItemResponse_new false None
  end.

End updateInventoryItem_service.

(** ** getInventoryItem_service.py *)

Module getInventoryItem_service.

Record InventoryLogDetails := {
  logId : string;
  timestamp : Z;
  changeAmount : Z
}.

Record InventoryItemFetchResponse := {
  id : string;
  name : string;
  quantity : Z;
  itemType : ItemType;
  logs : list InventoryLogDetails
}.

Definition getInventoryItem (itemId : string) : M InventoryItemFetchResponse :=
  item ← prisma_calls.InventoryItem_find_unique_with_logs itemId;
  match item with
  | None => raise (ValueError "Item not found")
  | Some (it, Logs) =>
      let logs :=
        (λ log : string * InventoryLog,
           {| logId := log.1; timestamp := log_timestamp log.2;
              changeAmount := log_changeAmount log.2 |}) <$> Logs in
      mret {| id := itemId; name := item_name it; quantity := item_quantity it;
              itemType := item_itemType it; logs := logs |}
  end.

End getInventoryItem_service.

(** ** server.py: the handlers of the other routes modelled here *)

Module server_routes.

(** The [except Exception] branch the handlers share: the dictionary with
    the text of the exception, encoded and handed to [Response]. *)
Definition error_response (e : exn) : M server.Response :=
  let res := [("error", server.str e)] in
  server.Response_new (server.jsonable_encoder res) 500 "application/json".

Definition api_post_createSchedule
    (shift_details : list createSchedule_service.ShiftDetail)
    (equipment_usage : list createSchedule_service.EquipmentUsage)
  : M (createSchedule_service.ScheduleCreationResponse + server.Response) :=
  try_except
    (res ← createSchedule_service.createSchedule shift_details equipment_usage;
     mret (inl res))
    (λ e, resp ← error_response e; mret (inr resp)).

Definition api_put_updateSchedule (scheduleId : string)
    (shiftStartTime shiftEndTime : Z) (equipmentId operationPlan : string)
  : M (updateSchedule_service.ScheduleUpdateResponse + server.Response) :=
  try_except
    (res ← updateSchedule_service.updateSchedule scheduleId shiftStartTime
             shiftEndTime equipmentId operationPlan;
     mret (inl res))
    (λ e, resp ← error_response e; mret (inr resp)).

Definition api_post_useSparePart (recordId : string)
    (parts : list useSparePart_service.PartUsage)
  : M (useSparePart_service.MaintenancePartsLogResponse + server.Response) :=
  try_except
    (res ← useSparePart_service.useSparePart recordId parts; mret (inl res))
    (λ e, resp ← error_response e; mret (inr resp)).

End server_routes.

(** ** Further vocabulary *)

(** The quantity a list of line items asks of one inventory item, all its
    lines taken together. *)
Fixpoint ordered (id : string) (items : list createOrder_service.OrderItem) : Z :=
  match items with
  | [] => 0
  | item :: rest =>
      (if decide (createOrder_service.inventoryItemId item = id)
       then createOrder_service.quantity item else 0) + ordered id rest
  end.

(** Two inventories hold the same items, up to their quantities: the same
    keys, and under each key the same name and type. *)
Definition same_items (inv inv' : gmap string InventoryItem) : Prop :=
  ∀ id,
    match inv !! id, inv' !! id with
    | Some it, Some it' =>
        item_name it' = item_name it ∧ item_itemType it' = item_itemType it
    | None, None => True
    | _, _ => False
    end.

(** The tables other than the inventory, its log and the orders. *)
Definition same_planning (s s' : Store) : Prop :=
  Shift_t s' = Shift_t s ∧ MaintenanceLog_t s' = MaintenanceLog_t s ∧
  Equipment_t s' = Equipment_t s ∧ Customer_t s' = Customer_t s.

(** The sum of the signed amounts of the log entries of one item. *)
Fixpoint total_change (id : string) (logs : list InventoryLog) : Z :=
  match logs with
  | [] => 0
  | l :: rest =>
      (if decide (log_inventoryItemId l = id) then log_changeAmount l else 0) +
      total_change id rest
  end.

(** * Properties *)

(** ** The monad and the loops *)

Ltac run := unfold mbind, mret, ST_bind, ST_ret, raise, try_except in *; simpl in *.

(** The first element of a list that fails a decidable test. *)
Lemma first_failure {A} (P : A → Prop) `{!∀ x, Decision (P x)} (l : list A) :
  ¬ Forall P l →
  ∃ pre bad post, l = pre ++ bad :: post ∧ Forall P pre ∧ ¬ P bad.
Proof.
  induction l as [|x l IH]; intros Hn.
  - destruct Hn. constructor.
  - destruct (decide (P x)) as [Hx|Hx].
    + destruct IH as (pre & bad & post & -> & Hpre & Hbad).
      { intros Hl. apply Hn. by constructor. }
      exists (x :: pre), bad, post. split_and!; [done | by constructor | done].
    + exists [], x, l. split_and!; [done | constructor | done].
Qed.

(** ** createOrder: the two passes *)

Lemma validate_item_in_stock w item :
  in_stock (InventoryItem_t (db w)) item →
  validate_item item w = (Ret tt, record_op (OpFindItem (inventoryItemId item)) w).
Proof.
  unfold in_stock, validate_item, prisma.InventoryItem_find_unique. run.
  destruct (InventoryItem_t (db w) !! inventoryItemId item) as [it|]; [|done].
  intros Hq. rewrite bool_decide_eq_false_2; [done | lia].
Qed.

Lemma validate_item_short w item :
  ¬ in_stock (InventoryItem_t (db w)) item →
  validate_item item w =
    (Raise (ValueError (not_enough_stock (inventoryItemId item))),
     record_op (OpFindItem (inventoryItemId item)) w).
Proof.
  unfold in_stock, validate_item, prisma.InventoryItem_find_unique. run.
  destruct (InventoryItem_t (db w) !! inventoryItemId item) as [it|]; [|done].
  intros Hq. rewrite bool_decide_eq_true_2; [done | lia].
Qed.

Lemma validate_pass items : ∀ w,
  Forall (in_stock (InventoryItem_t (db w))) items →
  ∃ w', for_each items validate_item w = (Ret tt, w') ∧ db w' = db w ∧
        trace w' = trace w ++ ((OpFindItem ∘ inventoryItemId) <$> items).
Proof.
  induction items as [|item items IH]; intros w Hall.
  - exists w. simpl. by rewrite app_nil_r.
  - apply Forall_cons in Hall as [Hitem Hall].
    destruct (IH (record_op (OpFindItem (inventoryItemId item)) w) Hall)
      as (w' & Hrun & Hdb & Htr).
    exists w'. cbn [for_each]. unfold mbind, ST_bind.
    rewrite (validate_item_in_stock _ _ Hitem), Hrun.
    split_and!; [done | done |].
    rewrite Htr. simpl. by rewrite <- app_assoc.
Qed.

Lemma validate_stop pre bad post : ∀ w,
  Forall (in_stock (InventoryItem_t (db w))) pre →
  ¬ in_stock (InventoryItem_t (db w)) bad →
  ∃ w', for_each (pre ++ bad :: post) validate_item w =
          (Raise (ValueError (not_enough_stock (inventoryItemId bad))), w') ∧
        db w' = db w ∧
        trace w' = trace w ++ ((OpFindItem ∘ inventoryItemId) <$> (pre ++ [bad])).
Proof.
  induction pre as [|item pre IH]; intros w Hpre Hbad.
  - eexists. cbn [app for_each]. unfold mbind, ST_bind.
    rewrite (validate_item_short _ _ Hbad). done.
  - apply Forall_cons in Hpre as [Hitem Hpre].
    destruct (IH (record_op (OpFindItem (inventoryItemId item)) w) Hpre Hbad)
      as (w' & Hrun & Hdb & Htr).
    exists w'. cbn [app for_each]. unfold mbind, ST_bind.
    rewrite (validate_item_in_stock _ _ Hitem), Hrun.
    split_and!; [done | done |].
    rewrite Htr. simpl. by rewrite <- app_assoc.
Qed.

Lemma decrement_item_run item w :
  ∃ w1 inv1, decrement_item item w = (Ret tt, w1) ∧
             db w1 = set_InventoryItem_t inv1 (db w).
Proof.
  unfold decrement_item, prisma.InventoryItem_update. run.
  destruct (InventoryItem_t (db w) !! inventoryItemId item) as [it|].
  - eexists _, _. split; done.
  - exists (record_op (OpUpdateItem (inventoryItemId item)) w), (InventoryItem_t (db w)).
    split; [done|]. simpl. by destruct (db w).
Qed.

(** The commit pass always runs to its end, and touches the inventory table
    only. *)
Lemma commit_pass items : ∀ w,
  ∃ w' inv', for_each items decrement_item w = (Ret tt, w') ∧
             db w' = set_InventoryItem_t inv' (db w).
Proof.
  induction items as [|item items IH]; intros w.
  - exists w, (InventoryItem_t (db w)). split; [done|]. by destruct (db w).
  - cbn [for_each]. unfold mbind, ST_bind.
    destruct (decrement_item_run item w) as (w1 & inv1 & -> & Hdb1).
    destruct (IH w1) as (w' & inv' & -> & Hdb).
    exists w', inv'. split; [done|]. rewrite Hdb, Hdb1. done.
Qed.



(** ** createSchedule: the conflict queries and the two scanning loops *)

(** A filter over the rows of a table comes back empty exactly when no row
    of the table passes it. *)
Lemma filter_rows_nil {V} (P : V → Prop) `{!∀ x, Decision (P x)}
    (m : gmap string V) :
  filter P (map_to_list m).*2 = [] ↔ ∀ id r, m !! id = Some r → ¬ P r.
Proof.
  split.
  - intros Hnil id r Hlook HP.
    apply (filter_nil_not_elem_of P _ r Hnil HP).
    apply list_elem_of_fmap. exists (id, r). split; [done|].
    by apply elem_of_map_to_list.
  - intros Hnone. destruct (filter P (map_to_list m).*2) as [|r rows] eqn:Hrows; [done|].
    assert (Hin : r ∈ filter P (map_to_list m).*2) by (rewrite Hrows; left).
    apply list_elem_of_filter in Hin as [HP Hin].
    apply list_elem_of_fmap in Hin as ([id r'] & -> & Hin).
    apply elem_of_map_to_list in Hin. by destruct (Hnone id r' Hin).
Qed.

Lemma check_shift_run w shift :
  (shift_conflict (db w) shift ∧
   check_shift shift w =
     (Ret (Some (failed "Failed due to shift conflict")), record_op (shift_query shift) w)) ∨
  (¬ shift_conflict (db w) shift ∧
   check_shift shift w = (Ret None, record_op (shift_query shift) w)).
Proof.
  unfold check_shift, prisma.Shift_find_many. run.
  destruct (filter _ _) as [|r rows] eqn:Hrows.
  - right. split; [|done]. intros (id & r & Hlook & Hemp & Hlt & Hgt).
    eapply (proj1 (filter_rows_nil _ _) Hrows id r Hlook).
    by repeat split.
  - left. split; [|done].
    assert (Hin : r ∈ r :: rows) by left. rewrite <- Hrows in Hin.
    apply list_elem_of_filter in Hin as [[[Hlt Hgt] Hemp] Hin].
    apply list_elem_of_fmap in Hin as ([id r'] & -> & Hin).
    apply elem_of_map_to_list in Hin. by exists id, r'.
Qed.

Lemma check_equipment_run w usage :
  (equipment_conflict (db w) usage ∧
   check_equipment usage w =
     (Ret (Some (failed "Failed due to equipment maintenance conflict")),
      record_op (maintenance_query usage) w)) ∨
  (¬ equipment_conflict (db w) usage ∧
   check_equipment usage w = (Ret None, record_op (maintenance_query usage) w)).
Proof.
  unfold check_equipment, prisma.MaintenanceLog_find_many. run.
  destruct (filter _ _) as [|r rows] eqn:Hrows.
  - right. split; [|done]. intros (id & r & Hlook & Heq & Hopen & Hlt & Hgt).
    eapply (proj1 (filter_rows_nil _ _) Hrows id r Hlook).
    by repeat split.
  - left. split; [|done].
    assert (Hin : r ∈ r :: rows) by left. rewrite <- Hrows in Hin.
    apply list_elem_of_filter in Hin as [[[Hlt Hgt] [Heq Hopen]] Hin].
    apply list_elem_of_fmap in Hin as ([id r'] & -> & Hin).
    apply elem_of_map_to_list in Hin. by exists id, r'.
Qed.

(** A scanning loop whose body issues one read-only call [op x] and returns
    [r] from the function when [P] holds of [x]: the loop stops at the first
    element with [P], having queried the elements up to and including it, or
    runs through the list. *)
Lemma for_return_scan {A R} (body : A → M (option R)) (P : Store → A → Prop)
    (op : A → DbOp) (r : R) :
  (∀ x w, (P (db w) x ∧ body x w = (Ret (Some r), record_op (op x) w)) ∨
          (¬ P (db w) x ∧ body x w = (Ret None, record_op (op x) w))) →
  ∀ l w, ∃ w', db w' = db w ∧ clock w' = clock w ∧ urandom w' = urandom w ∧
    ((Forall (λ x, ¬ P (db w) x) l ∧ for_return l body w = (Ret None, w') ∧
      trace w' = trace w ++ (op <$> l)) ∨
     (∃ pre bad post, l = pre ++ bad :: post ∧
        Forall (λ x, ¬ P (db w) x) pre ∧ P (db w) bad ∧
        for_return l body w = (Ret (Some r), w') ∧
        trace w' = trace w ++ (op <$> (pre ++ [bad])))).
Proof.
  intros Hbody. induction l as [|x l IH]; intros w.
  - exists w. split_and!; try done. left. split_and!; [constructor | done |].
    simpl. by rewrite app_nil_r.
  - cbn [for_return]. unfold mbind, ST_bind.
    destruct (Hbody x w) as [[HP ->]|[HP ->]].
    + exists (record_op (op x) w). split_and!; try done. right.
      exists [], x, l. split_and!; try done; constructor.
    + destruct (IH (record_op (op x) w))
        as (w' & Hdb & Hclock & Hrnd & [(Hall & -> & Htr)|(pre & bad & post & -> & Hpre & Hbad & -> & Htr)]).
      * exists w'. split_and!; try done. left. split_and!; [by constructor | done |].
        rewrite Htr. simpl. by rewrite <- app_assoc.
      * exists w'. split_and!; try done. right.
        exists (x :: pre), bad, post. split_and!; try done; [by constructor|].
        rewrite Htr. simpl. by rewrite <- app_assoc.
Qed.

Lemma Forall_not_Exists_not {A} (P : A → Prop) (l : list A) :
  Forall (λ x, ¬ P x) l → ¬ Exists P l.
Proof.
  intros Hall Hex. apply Exists_exists in Hex as (x & Hin & HP).
  rewrite Forall_forall in Hall. by apply (Hall x Hin).
Qed.

(** C2. [createSchedule] is two-phase and fail-fast.  It never writes to the
    store.  When some requested shift overlaps a stored shift of its
    employee, the call returns the shift-conflict failure, and the store
    calls it has made are exactly the shift queries for the requests up to
    and including the first conflicting one, in input order: no maintenance
    window is looked at, so no equipment conflict can be reported.  In every
    run the maintenance queries, if any, come after the shift queries for the
    whole list of requested shifts. *)
Theorem createSchedule_two_phase (w : World) (shift_details : list ShiftDetail)
    (equipment_usage : list EquipmentUsage) :
  let out := createSchedule shift_details equipment_usage w in
  db out.2 = db w ∧
  (Exists (shift_conflict (db w)) shift_details →
     ∃ pre bad post,
       shift_details = pre ++ bad :: post ∧
       Forall (λ shift, ¬ shift_conflict (db w) shift) pre ∧
       shift_conflict (db w) bad ∧
       out.1 = Ret (failed "Failed due to shift conflict") ∧
       trace out.2 = trace w ++ (shift_query <$> (pre ++ [bad]))) ∧
  (∃ n m : nat,
     trace out.2 = trace w ++ (shift_query <$> take n shift_details) ++
                              (maintenance_query <$> take m equipment_usage) ∧
     (m ≠ 0%nat → n = length shift_details)).
Proof.
  intros out. subst out. unfold createSchedule, mbind, ST_bind.
  destruct (for_return_scan check_shift shift_conflict shift_query
              (failed "Failed due to shift conflict")
              (λ x w, check_shift_run w x) shift_details w)
    as (w1 & Hdb1 & Hclock1 & Hrnd1 &
        [(Hall & -> & Htr1)|(pre & bad & post & Heq & Hpre & Hbad & -> & Htr1)]).
  - destruct (for_return_scan check_equipment equipment_conflict maintenance_query
                (failed "Failed due to equipment maintenance conflict")
                (λ x w, check_equipment_run w x) equipment_usage w1)
      as (w2 & Hdb2 & Hclock2 & Hrnd2 &
          [(Hall2 & -> & Htr2)|(pre & bad & post & Heq & Hpre & Hbad & -> & Htr2)]).
    + simpl. split_and!.
      * congruence.
      * intros Hex. by destruct (Forall_not_Exists_not _ _ Hall).
      * exists (length shift_details), (length equipment_usage).
        rewrite !firstn_all, Htr2, Htr1, <- app_assoc. done.
    + simpl. split_and!.
      * congruence.
      * intros Hex. by destruct (Forall_not_Exists_not _ _ Hall).
      * exists (length shift_details), (length (pre ++ [bad])).
        rewrite firstn_all, Htr2, Htr1, <- app_assoc. split; [|done].
        do 3 f_equal. rewrite Heq.
        replace (pre ++ bad :: post) with ((pre ++ [bad]) ++ post)
          by (by rewrite <- app_assoc).
        by rewrite take_app_length.
  - simpl. split_and!.
    + done.
    + intros _. by exists pre, bad, post.
    + exists (length (pre ++ [bad])), 0%nat. split; [|done].
      rewrite Htr1, Heq. simpl. rewrite app_nil_r.
      replace (pre ++ bad :: post) with ((pre ++ [bad]) ++ post)
        by (by rewrite <- app_assoc).
      by rewrite take_app_length.
Qed.

Lemma createSchedule_two_phase_witness :
  let w := world_of roster_store in
  let shift_details := [ {| start_time := 20; end_time := 22; employee_id := "E" |};
                         {| start_time := 8; end_time := 16; employee_id := "E" |};
                         {| start_time := 9; end_time := 10; employee_id := "E" |} ] in
  let equipment_usage := [ {| equipment_id := "saw1"; usage_start_time := 32;
                              usage_end_time := 35 |} ] in
  ∃ pre bad post,
    shift_details = pre ++ bad :: post ∧
    Forall (λ shift, ¬ shift_conflict (db w) shift) pre ∧
    shift_conflict (db w) bad ∧
    (createSchedule shift_details equipment_usage w).1 =
      Ret (failed "Failed due to shift conflict") ∧
    trace (createSchedule shift_details equipment_usage w).2 =
      trace w ++ (shift_query <$> (pre ++ [bad])).
Proof.
  intros w shift_details equipment_usage.
  apply (proj1 (proj2 (createSchedule_two_phase w shift_details equipment_usage))).
  apply Exists_cons_tl, Exists_cons_hd.
  exists "s1", {| row_startTime := 8; row_endTime := 16;
                  row_employeeId := "E"; row_Equipment := [] |}.
  split_and!; [by vm_compute | done | simpl; lia | simpl; lia].
Defined.

(** ** useSparePart: the loop over the parts *)

Lemma part_steps_length now inv parts inv' rem logs :
  part_steps now inv parts inv' rem logs →
  length logs = length rem ∧ (length rem ≤ length parts)%nat.
Proof. induction 1; simpl; lia. Qed.

Lemma part_steps_amounts now inv parts inv' rem logs :
  part_steps now inv parts inv' rem logs →
  Forall (λ p, 0 < quantityUsed p) parts →
  Forall (λ l, log_changeAmount l < 0) logs.
Proof.
  induction 1 as [|? ? ? ? ? ? ? ? ? ? IH|? ? ? ? ? ? ? ? IH]; intros Hpos.
  - constructor.
  - apply Forall_cons in Hpos as [Hp Hpos]. constructor; [simpl; lia | auto].
  - apply Forall_cons in Hpos as [_ Hpos]. auto.
Qed.

(** The log entries of a run account for its quantity changes: replaying
    them on the inventory before the run gives the inventory after it. *)
Lemma part_steps_replay now inv parts inv' rem logs :
  part_steps now inv parts inv' rem logs → inv' = replay logs inv.
Proof.
  induction 1 as [|inv part it parts inv' rem logs Hlook Hq Hsteps IH|]; [done| |done].
  rewrite IH. unfold replay. simpl. f_equal.
  unfold apply_log. simpl. apply map_eq. intros id.
  rewrite lookup_insert, lookup_alter.
  case_decide as Hid; [|done]. subst id. simpl. rewrite Hlook. done.
Qed.

Lemma use_part_used w part it rem ok :
  InventoryItem_t (db w) !! partId part = Some it →
  quantityUsed part ≤ item_quantity it →
  ∃ w1,
    use_part part (rem, ok) w =
      (Ret (rem ++ [{| state_partId := partId part;
                       remainingQuantity := item_quantity it - quantityUsed part |}],
            ok), w1) ∧
    db w1 =
      set_InventoryLog_t
        (InventoryLog_t (db w) ++
           [{| log_changeAmount := - quantityUsed part; log_timestamp := clock w;
               log_inventoryItemId := partId part |}])
        (set_InventoryItem_t
           (<[partId part := set_quantity (item_quantity it - quantityUsed part) it]>
              (InventoryItem_t (db w)))
           (db w)) ∧
    clock w1 = clock w ∧
    trace w1 = trace w ++ [OpFindItem (partId part); OpUpdateItem (partId part);
                           OpCreateLog (partId part)].
Proof.
  intros Hlook Hq. unfold use_part, prisma.InventoryItem_find_unique,
    prisma.InventoryItem_update, prisma.InventoryLog_create, datetime_now. run.
  rewrite Hlook. rewrite bool_decide_eq_true_2 by lia. simpl. rewrite Hlook.
  eexists. split_and!; try done. simpl. by rewrite <- !app_assoc.
Qed.

Lemma use_part_skipped w part rem ok :
  (∀ it, InventoryItem_t (db w) !! partId part = Some it →
         item_quantity it < quantityUsed part) →
  use_part part (rem, ok) w = (Ret (rem, false), record_op (OpFindItem (partId part)) w).
Proof.
  intros Hshort. unfold use_part, prisma.InventoryItem_find_unique. run.
  destruct (InventoryItem_t (db w) !! partId part) as [it|]; [|done].
  specialize (Hshort it eq_refl). rewrite bool_decide_eq_false_2 by lia. done.
Qed.

Lemma use_parts_loop parts : ∀ w rem ok,
  ∃ w' inv' rem' logs ops,
    part_steps (clock w) (InventoryItem_t (db w)) parts inv' rem' logs ∧
    for_fold parts use_part (rem, ok) w =
      (Ret (rem ++ rem', ok && bool_decide (length rem' = length parts)), w') ∧
    db w' = set_InventoryLog_t (InventoryLog_t (db w) ++ logs)
              (set_InventoryItem_t inv' (db w)) ∧
    clock w' = clock w ∧
    trace w' = trace w ++ ops ∧
    updates_of ops = log_inventoryItemId <$> logs.
Proof.
  induction parts as [|part parts IH]; intros w rem ok.
  - exists w, (InventoryItem_t (db w)), [], [], []. split_and!; try done.
    + constructor.
    + simpl. unfold mret, ST_ret. by rewrite app_nil_r, andb_true_r.
    + rewrite app_nil_r. by destruct (db w).
    + by rewrite app_nil_r.
  - cbn [for_fold]. unfold mbind, ST_bind.
    destruct (InventoryItem_t (db w) !! partId part) as [it|] eqn:Hlook.
    + destruct (decide (quantityUsed part ≤ item_quantity it)) as [Hq|Hq].
      * destruct (use_part_used w part it rem ok Hlook Hq)
          as (w1 & -> & Hdb1 & Hclock1 & Htr1).
        destruct (IH w1 (rem ++ [{| state_partId := partId part;
                    remainingQuantity := item_quantity it - quantityUsed part |}]) ok)
          as (w' & inv' & rem' & logs & ops & Hsteps & -> & Hdb & Hclock & Htr & Hops).
        rewrite Hdb1, Hclock1 in Hsteps. simpl in Hsteps.
        eexists w', inv', (_ :: rem'), (_ :: logs), (_ ++ ops).
        split_and!.
        -- by eapply steps_use.
        -- rewrite <- app_assoc. simpl. do 4 f_equal.
           apply bool_decide_ext. lia.
        -- rewrite Hdb, Hdb1. simpl. by rewrite <- app_assoc.
        -- congruence.
        -- rewrite Htr, Htr1. by rewrite <- app_assoc.
        -- simpl. by rewrite Hops.
      * rewrite use_part_skipped by (intros it' Hit'; simplify_eq; lia).
        destruct (IH (record_op (OpFindItem (partId part)) w) rem false)
          as (w' & inv' & rem' & logs & ops & Hsteps & -> & Hdb & Hclock & Htr & Hops).
        simpl in *.
        exists w', inv', rem', logs, (OpFindItem (partId part) :: ops).
        split_and!; try done.
        -- apply steps_skip; [|done]. intros it' Hit'. simplify_eq. lia.
        -- destruct (part_steps_length _ _ _ _ _ _ Hsteps) as [_ Hlen].
           rewrite bool_decide_eq_false_2 by lia. by rewrite andb_false_r.
        -- rewrite Htr. by rewrite <- app_assoc.
    + rewrite use_part_skipped by (intros it' Hit'; simplify_eq).
      destruct (IH (record_op (OpFindItem (partId part)) w) rem false)
        as (w' & inv' & rem' & logs & ops & Hsteps & -> & Hdb & Hclock & Htr & Hops).
      simpl in *.
      exists w', inv', rem', logs, (OpFindItem (partId part) :: ops).
      split_and!; try done.
      * apply steps_skip; [|done]. intros it' Hit'. simplify_eq.
      * destruct (part_steps_length _ _ _ _ _ _ Hsteps) as [_ Hlen].
        rewrite bool_decide_eq_false_2 by lia. by rewrite andb_false_r.
      * rewrite Htr. by rewrite <- app_assoc.
Qed.

(** C3 as stated fails on the code in two places.  For a maintenance record
    that does not exist no part is processed at all: part [A] is in stock
    with five pieces, two are asked for, and the quantity stays at five.  And
    a usage of zero is logged with the amount zero, which is not negative. *)
Lemma useSparePart_best_effort_counterexample :
  ¬ best_effort_as_stated (world_of stock_store) "no-such-record"
      [ {| partId := "A"; quantityUsed := 2 |} ] ∧
  ¬ best_effort_as_stated (world_of stock_store) "rec1"
      [ {| partId := "A"; quantityUsed := 0 |} ].
Proof.
  assert (Hstock : InventoryItem_t (db (world_of stock_store)) !! "A" =
                   Some (item "oak board" 5)) by (by vm_compute).
  split.
  - intros (inv' & rem & logs & r & Hsteps & _ & _ & _ & _ & Hinv & _).
    assert (Hafter : ∀ m,
      InventoryItem_t (db (useSparePart "no-such-record"
        [ {| partId := "A"; quantityUsed := 2 |} ] (world_of stock_store)).2) = m →
      item_quantity <$> m !! "A" = Some 5) by (intros m <-; by vm_compute).
    apply Hafter in Hinv. clear Hafter.
    inversion Hsteps as [|? ? it ? ? ? ? Hlook Hq Hrest|? ? ? ? ? ? Hshort Hrest];
      subst; simpl in *.
    + inversion Hrest; subst. rewrite lookup_insert_eq in Hinv.
      rewrite Hstock in Hlook. injection Hlook as <-. simpl in Hinv. discriminate.
    + specialize (Hshort _ Hstock). simpl in Hshort. lia.
  - intros (inv' & rem & logs & r & _ & Hneg & _ & _ & _ & _ & Hlog).
    vm_compute in Hlog. subst logs.
    apply Forall_cons in Hneg as [Hneg _]. simpl in Hneg. lia.
Qed.

(** C3 (amended).  When the maintenance record exists, [useSparePart]
    processes the parts best-effort, in input order: a part that exists with
    a quantity of at least the usage is decremented and gets one log entry
    with the negated usage (a negative amount when the usages are positive),
    any other part is skipped.  The response carries the record, lists
    exactly the decremented parts with their remaining quantities, and its
    flag holds exactly when no part was skipped.  When the record does not
    exist, the store is left as it was. *)
Theorem useSparePart_best_effort (w : World) (recordId : string)
    (parts : list PartUsage) :
  let out := useSparePart recordId parts w in
  (∀ record, MaintenanceLog_t (db w) !! recordId = Some record →
     ∃ inv' rem logs r,
       part_steps (clock w) (InventoryItem_t (db w)) parts inv' rem logs ∧
       (Forall (λ p, 0 < quantityUsed p) parts →
        Forall (λ l, log_changeAmount l < 0) logs) ∧
       out.1 = Ret r ∧
       updatedRecord r = record ∧
       remainingInventory r = rem ∧
       (useSparePart_service.success r = true ↔ length rem = length parts) ∧
       InventoryItem_t (db out.2) = inv' ∧
       InventoryLog_t (db out.2) = InventoryLog_t (db w) ++ logs) ∧
  (MaintenanceLog_t (db w) !! recordId = None → db out.2 = db w).
Proof.
  intros out. subst out.
  unfold useSparePart, prisma.MaintenanceLog_find_unique, mbind, ST_bind. simpl.
  split.
  - intros record Hrec. rewrite Hrec.
    destruct (use_parts_loop parts (record_op (OpFindMaintenanceLog recordId) w) [] true)
      as (w' & inv' & rem & logs & ops & Hsteps & -> & Hdb & Hclock & Htr & Hops).
    simpl in *. rewrite Hdb. simpl. rewrite Hrec. simpl.
    eexists inv', rem, logs, _. split_and!; try done; try (by rewrite Hdb).
    + by apply (part_steps_amounts _ _ _ _ _ _ Hsteps).
    + simpl. by rewrite bool_decide_eq_true.
  - intros Hrec. rewrite Hrec. done.
Qed.

Lemma useSparePart_best_effort_witness :
  let w := world_of stock_store in
  let parts := [ {| partId := "A"; quantityUsed := 2 |};
                 {| partId := "B"; quantityUsed := 2 |} ] in
  ∃ inv' rem logs r,
    part_steps (clock w) (InventoryItem_t (db w)) parts inv' rem logs ∧
    (Forall (λ p, 0 < quantityUsed p) parts →
     Forall (λ l, log_changeAmount l < 0) logs) ∧
    (useSparePart "rec1" parts w).1 = Ret r ∧
    updatedRecord r =
      {| ml_equipmentId := "saw1"; ml_startTime := 0; ml_endTime := 10;
         ml_completionDate := Some 10 |} ∧
    remainingInventory r = rem ∧
    (useSparePart_service.success r = true ↔ length rem = length parts) ∧
    InventoryItem_t (db (useSparePart "rec1" parts w).2) = inv' ∧
    InventoryLog_t (db (useSparePart "rec1" parts w).2) = InventoryLog_t (db w) ++ logs.
Proof.
  intros w parts.
  apply (proj1 (useSparePart_best_effort w "rec1" parts)).
  by vm_compute.
Defined.

(** ** The inventory log *)

(** C7 as stated fails on the code: an order for three boards takes the
    quantity of [A] from five to two and leaves the log empty. *)
Lemma inventory_log_counterexample :
  let w := world_of stock_store in
  let out := createOrder "cust1" [ {| inventoryItemId := "A"; quantity := 3 |} ] w in
  item_quantity <$> (InventoryItem_t (db w) !! "A") = Some 5 ∧
  item_quantity <$> (InventoryItem_t (db out.2) !! "A") = Some 2 ∧
  InventoryLog_t (db out.2) = [].
Proof. by vm_compute. Qed.

(** C7 (amended).  The inventory log is append-only under both operations,
    and it is written by spare-part usage alone.  A call of [useSparePart]
    appends one entry per update call it issues on the inventory, for the
    same items in the same order, and the entries account for the quantity
    changes: replaying them on the inventory before the call gives the
    inventory after it.  A call of [createOrder] leaves the log as it was,
    whatever it does to the quantities. *)
Theorem inventory_log_append_only (w : World) :
  (∀ recordId parts,
     let out := useSparePart recordId parts w in
     ∃ logs ops,
       InventoryLog_t (db out.2) = InventoryLog_t (db w) ++ logs ∧
       trace out.2 = trace w ++ ops ∧
       updates_of ops = log_inventoryItemId <$> logs ∧
       InventoryItem_t (db out.2) = replay logs (InventoryItem_t (db w))) ∧
  (∀ customerId items,
     InventoryLog_t (db (createOrder customerId items w).2) = InventoryLog_t (db w)).
Proof.
  split.
  - intros recordId parts out. subst out.
    unfold useSparePart, prisma.MaintenanceLog_find_unique, mbind, ST_bind. simpl.
    destruct (MaintenanceLog_t (db w) !! recordId) as [record|] eqn:Hrec.
    + destruct (use_parts_loop parts (record_op (OpFindMaintenanceLog recordId) w) [] true)
        as (w' & inv' & rem & logs & ops & Hsteps & -> & Hdb & Hclock & Htr & Hops).
      simpl in *. rewrite Hdb. simpl. rewrite Hrec. simpl.
      exists logs, (OpFindMaintenanceLog recordId :: ops ++ [OpFindMaintenanceLog recordId]).
      split_and!.
      * by rewrite Hdb.
      * rewrite Htr. by rewrite <- !app_assoc.
      * simpl. unfold updates_of in *. rewrite omap_app, Hops. simpl.
        by rewrite app_nil_r.
      * rewrite Hdb. simpl. by apply (part_steps_replay _ _ _ _ _ _ Hsteps).
    + exists [], [OpFindMaintenanceLog recordId]. simpl.
      by rewrite app_nil_r.
  - intros customerId items. unfold createOrder, mbind, ST_bind.
    destruct (for_each items validate_item w) as [[[]|e] w1] eqn:Hval.
    + assert (Hdb1 : db w1 = db w).
      { destruct (decide (Forall (in_stock (InventoryItem_t (db w))) items)) as [Hall|Hn].
        - destruct (validate_pass items w Hall) as (w1' & Hrun & Hdb & _). congruence.
        - destruct (first_failure _ _ Hn) as (pre & bad & post & -> & Hpre & Hbad).
          destruct (validate_stop pre bad post w Hpre Hbad) as (w1' & Hrun & _).
          congruence. }
      destruct (commit_pass items w1) as (w2 & inv2 & -> & Hdb2).
      unfold prisma.SalesOrder_create. case_decide; simpl; rewrite Hdb2, Hdb1; done.
    + simpl.
      destruct (decide (Forall (in_stock (InventoryItem_t (db w))) items)) as [Hall|Hn].
      * destruct (validate_pass items w Hall) as (w1' & Hrun & Hdb & _). congruence.
      * destruct (first_failure _ _ Hn) as (pre & bad & post & -> & Hpre & Hbad).
        destruct (validate_stop pre bad post w Hpre Hbad) as (w1' & Hrun & Hdb & _).
        congruence.
Qed.

(** ** Quantities below zero *)

(** Spare-part usage keeps the quantities non-negative: each decrement is
    guarded by a check made on the quantity it decrements. *)
Lemma part_steps_nonneg now inv parts inv' rem logs :
  part_steps now inv parts inv' rem logs →
  quantities_nonneg inv → quantities_nonneg inv'.
Proof.
  induction 1 as [|inv part it parts inv' rem logs Hlook Hq Hsteps IH|]; [done| |done].
  intros Hinv. apply IH. apply map_Forall_insert_2; [simpl; lia | done].
Qed.

(** X4.  [useSparePart] keeps the quantities non-negative: from an inventory
    with no negative quantity it leaves one with no negative quantity, whatever
    the record and the parts (a part named twice is checked again before its
    second decrement). *)
Lemma useSparePart_keeps_nonneg (w : World) recordId parts :
  quantities_nonneg (InventoryItem_t (db w)) →
  quantities_nonneg (InventoryItem_t (db (useSparePart recordId parts w).2)).
Proof.
  intros Hinv.
  unfold useSparePart, prisma.MaintenanceLog_find_unique, mbind, ST_bind. simpl.
  destruct (MaintenanceLog_t (db w) !! recordId) as [record|] eqn:Hrec; [|done].
  destruct (use_parts_loop parts (record_op (OpFindMaintenanceLog recordId) w) [] true)
    as (w' & inv' & rem & logs & ops & Hsteps & -> & Hdb & _).
  simpl in *. rewrite Hdb. simpl. rewrite Hrec. simpl. rewrite Hdb. simpl.
  by apply (part_steps_nonneg _ _ _ _ _ _ Hsteps).
Qed.

(** The commit pass of [createOrder] keeps the quantities non-negative when
    the line items name pairwise distinct inventory items, each in stock. *)
Lemma commit_pass_distinct_nonneg items : ∀ w,
  NoDup (inventoryItemId <$> items) →
  Forall (in_stock (InventoryItem_t (db w))) items →
  quantities_nonneg (InventoryItem_t (db w)) →
  quantities_nonneg (InventoryItem_t (db (for_each items decrement_item w).2)).
Proof.
  induction items as [|item items IH]; intros w Hnd Hall Hinv; [done|].
  apply NoDup_cons in Hnd as [Hfresh Hnd]. apply Forall_cons in Hall as [Hitem Hall].
  cbn [for_each]. unfold mbind, ST_bind.
  unfold decrement_item at 1, prisma.InventoryItem_update, mbind, ST_bind, mret, ST_ret.
  unfold in_stock in Hitem.
  destruct (InventoryItem_t (db w) !! inventoryItemId item) as [it|] eqn:Hlook; [|done].
  apply IH; [done | | ]; simpl.
  - rewrite Forall_forall in Hall |- *. intros x Hx. specialize (Hall x Hx).
    unfold in_stock in *. rewrite lookup_insert_ne; [done|].
    intros Heq. apply Hfresh. rewrite Heq. by apply list_elem_of_fmap_2.
  - apply map_Forall_insert_2; [simpl; lia | done].
Qed.

(** C4.  The stock check of [createOrder] looks at each line on its own, so
    two lines for the same item pass it together although their sum exceeds
    the stock: from five boards, two lines of three each are both served and
    the quantity ends at minus one. *)
Theorem createOrder_duplicate_lines_oversell :
  let w := world_of stock_store in
  let items := [ {| inventoryItemId := "A"; quantity := 3 |};
                 {| inventoryItemId := "A"; quantity := 3 |} ] in
  let out := createOrder "cust1" items w in
  quantities_nonneg (InventoryItem_t (db w)) ∧
  out.1 = Ret {| orderId := "order-0" |} ∧
  item_quantity <$> (InventoryItem_t (db out.2) !! "A") = Some (-1) ∧
  ¬ quantities_nonneg (InventoryItem_t (db out.2)).
Proof.
  intros w items out. split_and!.
  - apply map_Forall_insert_2; [simpl; lia|].
    apply map_Forall_singleton. simpl. lia.
  - by vm_compute.
  - by vm_compute.
  - intros Hinv.
    assert (Hlook : InventoryItem_t (db out.2) !! "A" = Some (item "oak board" (-1)))
      by (by vm_compute).
    specialize (Hinv _ _ Hlook). simpl in Hinv. lia.
Qed.

(** ** The HTTP handler of createOrder *)




(** ** Zero-length candidates *)

(** C6 as stated fails on the code: the instant 10 lies inside the stored
    shift 8-16 of employee [E], the filter of the query accepts that shift
    for the candidate 10-10, and [createSchedule] reports a conflict. *)
Lemma zero_length_counterexample :
  overlaps 10 10 8 16 ∧
  (createSchedule [ {| start_time := 10; end_time := 10; employee_id := "E" |} ] []
     (world_of roster_store)).1 =
  Ret (failed "Failed due to shift conflict").
Proof. split; [unfold overlaps; lia | by vm_compute]. Qed.

(** C6 (amended).  A zero-length candidate at the instant [t] conflicts
    exactly with the stored intervals of its subject that contain [t]
    strictly inside, [start < t < end]; it never conflicts with an interval
    that starts or ends at [t] or lies apart from it.  This holds for the
    shift query and for the query on open maintenance windows. *)
Theorem zero_length_conflicts_inside (w : World) (t : Z) (subject : string) :
  ((createSchedule [ {| start_time := t; end_time := t; employee_id := subject |} ] [] w).1 =
     Ret (failed "Failed due to shift conflict") ↔
   ∃ id r, Shift_t (db w) !! id = Some r ∧ row_employeeId r = subject ∧
           row_startTime r < t < row_endTime r) ∧
  ((createSchedule [] [ {| equipment_id := subject; usage_start_time := t;
                           usage_end_time := t |} ] w).1 =
     Ret (failed "Failed due to equipment maintenance conflict") ↔
   ∃ id r, MaintenanceLog_t (db w) !! id = Some r ∧ ml_equipmentId r = subject ∧
           ml_completionDate r = None ∧ ml_startTime r < t < ml_endTime r).
Proof.
  split.
  - unfold createSchedule, mbind, ST_bind. cbn [for_return]. unfold mbind, ST_bind.
    destruct (check_shift_run w {| start_time := t; end_time := t; employee_id := subject |})
      as [[(id & r & Hlook & Hemp & Hlt & Hgt) ->]|[Hno ->]]; simpl in *.
    + split; [|done]. intros _. by exists id, r.
    + split; [done|]. intros (id & r & Hlook & Hemp & Hlt & Hgt).
      destruct Hno. by exists id, r.
  - unfold createSchedule, mbind, ST_bind. cbn [for_return]. unfold mbind, ST_bind.
    simpl.
    destruct (check_equipment_run w {| equipment_id := subject; usage_start_time := t;
                                       usage_end_time := t |})
      as [[(id & r & Hlook & Heq & Hopen & Hlt & Hgt) ->]|[Hno ->]]; simpl in *.
    + split; [|done]. intros _. by exists id, r.
    + split; [done|]. intros (id & r & Hlook & Heq & Hopen & Hlt & Hgt).
      destruct Hno. by exists id, r.
Qed.

(** ** updateSchedule *)

(** The store calls of [updateSchedule] are a lookup of the shift by key and,
    when it is found, one update: no query for overlapping shifts or
    maintenance windows is issued. *)
Lemma updateSchedule_store_calls (w : World) scheduleId s e equipmentId plan :
  let out := updateSchedule_service.updateSchedule scheduleId s e equipmentId plan w in
  trace out.2 = trace w ++ [OpFindShift scheduleId] ∨
  trace out.2 = trace w ++ [OpFindShift scheduleId; OpUpdateShift scheduleId].
Proof.
  unfold updateSchedule_service.updateSchedule, prisma.Shift_find_unique,
    prisma.Shift_update, updateSchedule_service.ScheduleUpdateResponse_new. run.
  destruct (Shift_t (db w) !! scheduleId) as [r|] eqn:Hlook; simpl; [|by left].
  rewrite Hlook. right. case_decide; simpl; rewrite <- ?app_assoc; done.
Qed.

(** For an identifier that does not exist, the failure response is built
    with no schedule; the field is declared [Shift], which validation on
    construction does not let be [None], so the call raises. *)
Lemma updateSchedule_missing_shift (w : World) scheduleId s e equipmentId plan :
  Shift_t (db w) !! scheduleId = None →
  updateSchedule_service.updateSchedule scheduleId s e equipmentId plan w =
    (Raise (ValidationError "ScheduleUpdateResponse" "updatedSchedule"),
     record_op (OpFindShift scheduleId) w).
Proof.
  intros Hnone.
  unfold updateSchedule_service.updateSchedule, prisma.Shift_find_unique,
    updateSchedule_service.ScheduleUpdateResponse_new. run.
  by rewrite Hnone.
Qed.

(** C8.  [updateSchedule] writes the new times without a conflict check.
    Shift [s2] of employee [E] is moved to 9-10, inside shift [s1] (8-16) of
    the same employee, a placement [createSchedule] rejects: the call
    succeeds, the store then holds the two overlapping shifts, and the only
    store calls are the lookup and the update. *)
Theorem updateSchedule_no_conflict_check :
  let w := world_of roster_store in
  let out := updateSchedule_service.updateSchedule "s2" 9 10 "saw1" "plan" w in
  shift_conflict (db w) {| start_time := 9; end_time := 10; employee_id := "E" |} ∧
  (createSchedule [ {| start_time := 9; end_time := 10; employee_id := "E" |} ] [] w).1 =
    Ret (failed "Failed due to shift conflict") ∧
  out.1 = Ret {| updateSchedule_service.success := true;
                 updateSchedule_service.message := "Shift was successfully updated.";
                 updateSchedule_service.updatedSchedule :=
                   {| updateSchedule_service.startTime := 9;
                      updateSchedule_service.endTime := 10;
                      updateSchedule_service.employeeId := "E";
                      updateSchedule_service.equipmentId := ["saw1"] |} |} ∧
  Shift_t (db out.2) !! "s2" =
    Some {| row_startTime := 9; row_endTime := 10; row_employeeId := "E";
            row_Equipment := ["saw1"] |} ∧
  Shift_t (db out.2) !! "s1" =
    Some {| row_startTime := 8; row_endTime := 16; row_employeeId := "E";
            row_Equipment := [] |} ∧
  trace out.2 = [OpFindShift "s2"; OpUpdateShift "s2"].
Proof.
  intros w out. split_and!; try (by vm_compute).
  exists "s1", {| row_startTime := 8; row_endTime := 16;
                  row_employeeId := "E"; row_Equipment := [] |}.
  split_and!; [by vm_compute | done | simpl; lia | simpl; lia].
Qed.

(** ** createSchedule: the success path *)

Lemma hex_length n : ∀ v, length (uuid.hex n v) = n.
Proof.
  induction n as [|n IH]; intros v; [done|].
  simpl. rewrite length_app, IH. simpl. lia.
Qed.

Lemma string_of_list_ascii_length (l : list ascii) :
  String.length (string_of_list_ascii l) = length l.
Proof. induction l as [|c l IH]; simpl; [done | by rewrite IH]. Qed.

(** An identifier printed by [str(uuid.uuid4())] has 36 characters. *)
Lemma uuid_str_length (int : Z) : String.length (uuid.uuid_str int) = 36%nat.
Proof.
  unfold uuid.uuid_str. rewrite string_of_list_ascii_length.
  rewrite !length_app, !length_take, !length_drop, hex_length. simpl. lia.
Qed.

Lemma Forall_not_middle {A} (P : A → Prop) (pre post : list A) (bad : A) :
  Forall (λ x, ¬ P x) (pre ++ bad :: post) → ¬ P bad.
Proof. intros Hall. apply Forall_app in Hall as [_ Hall]. by apply Forall_cons in Hall as [? _]. Qed.

(** The identifier is a faithful print of the draw: the sixteen digits are
    told apart, so are the numbers of 32 digits, the grouping keeps every
    digit, and forcing the variant and the version leaves the other 122 bits
    as drawn. *)
Lemma hex_digit_inj (a b : Z) :
  0 ≤ a < 16 → 0 ≤ b < 16 → uuid.hex_digit a = uuid.hex_digit b → a = b.
Proof.
  intros Ha Hb.
  assert (Hcases : ∀ x, 0 ≤ x < 16 →
    x = 0 ∨ x = 1 ∨ x = 2 ∨ x = 3 ∨ x = 4 ∨ x = 5 ∨ x = 6 ∨ x = 7 ∨
    x = 8 ∨ x = 9 ∨ x = 10 ∨ x = 11 ∨ x = 12 ∨ x = 13 ∨ x = 14 ∨ x = 15) by lia.
  destruct (Hcases a Ha)
    as [->|[->|[->|[->|[->|[->|[->|[->|[->|[->|[->|[->|[->|[->|[->| ->]]]]]]]]]]]]]]];
  destruct (Hcases b Hb)
    as [->|[->|[->|[->|[->|[->|[->|[->|[->|[->|[->|[->|[->|[->|[->| ->]]]]]]]]]]]]]]];
  first [reflexivity | (intros H; vm_compute in H; discriminate H)].
Qed.

Lemma hex_inj n : ∀ a b,
  uuid.hex n a = uuid.hex n b → a mod 16 ^ Z.of_nat n = b mod 16 ^ Z.of_nat n.
Proof.
  induction n as [|n IH]; intros a b Heq.
  - simpl. by rewrite !Z.mod_1_r.
  - simpl in Heq. apply app_inj_tail in Heq as [Hhi Hlo].
    apply IH in Hhi.
    apply hex_digit_inj in Hlo; [|by apply Z.mod_pos_bound..].
    rewrite Nat2Z.inj_succ, Z.pow_succ_r by lia.
    rewrite !Z.rem_mul_r by lia. by rewrite Hhi, Hlo.
Qed.

Lemma string_of_list_ascii_inj (l1 l2 : list ascii) :
  string_of_list_ascii l1 = string_of_list_ascii l2 → l1 = l2.
Proof.
  intros Heq. rewrite <- (list_ascii_of_string_of_list_ascii l1),
    <- (list_ascii_of_string_of_list_ascii l2). by rewrite Heq.
Qed.

Lemma uuid_str_inj (a b : Z) :
  uuid.uuid_str a = uuid.uuid_str b → uuid.hex 32 a = uuid.hex 32 b.
Proof.
  unfold uuid.uuid_str. intros Heq. apply string_of_list_ascii_inj in Heq.
  pose proof (hex_length 32 a) as Ha. pose proof (hex_length 32 b) as Hb.
  revert Heq Ha Hb. generalize (uuid.hex 32 a) (uuid.hex 32 b). intros h1 h2 Heq H1 H2.
  do 33 (destruct h1 as [|? h1]; [discriminate H1 || idtac |]); try discriminate H1.
  do 33 (destruct h2 as [|? h2]; [discriminate H2 || idtac |]); try discriminate H2.
  simpl in Heq. by simplify_eq.
Qed.

Lemma uuid4_int_testbit (r i : Z) :
  free_bit i = true → Z.testbit (uuid.uuid4_int r) i = Z.testbit r i.
Proof.
  unfold free_bit.
  rewrite !andb_true_iff, !negb_true_iff, !bool_decide_eq_true, !bool_decide_eq_false.
  intros [[Hi H1] H2]. unfold uuid.uuid4_int.
  change (Z.shiftl 0xc000 48) with (Z.shiftl (Z.ones 2) 62).
  change (Z.shiftl 0x8000 48) with (2 ^ 63).
  change (Z.shiftl 0xf000 64) with (Z.shiftl (Z.ones 4) 76).
  change (Z.shiftl 4 76) with (2 ^ 78).
  repeat (rewrite Z.lor_spec || rewrite Z.ldiff_spec || rewrite Z.land_spec).
  rewrite !Z.pow2_bits_eqb by lia.
  rewrite !Z.shiftl_spec by lia.
  rewrite (Z.ones_spec_low 128) by lia.
  replace (78 =? i) with false by (symmetry; apply Z.eqb_neq; lia).
  replace (63 =? i) with false by (symmetry; apply Z.eqb_neq; lia).
  assert (Hb2 : Z.testbit (Z.ones 2) (i - 62) = false).
  { destruct (decide (i < 62)); [by apply Z.testbit_neg_r; lia|].
    apply Z.ones_spec_high; lia. }
  assert (Hb4 : Z.testbit (Z.ones 4) (i - 76) = false).
  { destruct (decide (i < 76)); [by apply Z.testbit_neg_r; lia|].
    apply Z.ones_spec_high; lia. }
  rewrite Hb2, Hb4. simpl. by rewrite !andb_true_r, !orb_false_r.
Qed.

Lemma uuid_str_same_draw (r1 r2 : Z) :
  uuid.uuid_str (uuid.uuid4_int r1) = uuid.uuid_str (uuid.uuid4_int r2) →
  same_draw r1 r2.
Proof.
  intros Heq i Hi. apply uuid_str_inj, hex_inj in Heq.
  change (16 ^ Z.of_nat 32) with (2 ^ 128) in Heq.
  rewrite <- (uuid4_int_testbit r1 i Hi), <- (uuid4_int_testbit r2 i Hi).
  assert (Hlt : 0 ≤ i < 128).
  { unfold free_bit in Hi. rewrite !andb_true_iff, bool_decide_eq_true in Hi. tauto. }
  rewrite <- (Z.mod_pow2_bits_low (uuid.uuid4_int r1) 128 i) by lia.
  rewrite <- (Z.mod_pow2_bits_low (uuid.uuid4_int r2) 128 i) by lia.
  by rewrite Heq.
Qed.

(** The sixteen bytes [uuid4] draws are the low 128 bits of the source. *)
Lemma uuid4_int_draw (r : Z) :
  uuid.uuid4_int (Z.land r (Z.ones (8 * 16))) = uuid.uuid4_int r.
Proof.
  unfold uuid.uuid4_int. change (8 * 16) with 128.
  by rewrite <- Z.land_assoc, Z.land_diag.
Qed.

Lemma uuid4_run (w : World) :
  uuid.uuid4 w =
    (Ret (uuid.uuid_str (uuid.uuid4_int (urandom w))),
     set_urandom (λ source, Z.shiftr source 128) w).
Proof.
  unfold uuid.uuid4, os.urandom, mbind, ST_bind, mret, ST_ret. simpl.
  by rewrite uuid4_int_draw.
Qed.

(** A call of [createSchedule] returns one of its two failures, or the
    success response whose identifier is printed from the sixteen bytes it
    drew and used up. *)
Lemma createSchedule_run (w : World) shift_details equipment_usage :
  ∃ r w', createSchedule shift_details equipment_usage w = (Ret r, w') ∧
    (r = failed "Failed due to shift conflict" ∨
     r = failed "Failed due to equipment maintenance conflict" ∨
     (r = {| schedule_id := uuid.uuid_str (uuid.uuid4_int (urandom w));
             shifts := shift_details; used_equipment := equipment_usage;
             creation_status := "Success" |} ∧
      urandom w' = Z.shiftr (urandom w) 128)).
Proof.
  unfold createSchedule, mbind, ST_bind.
  destruct (for_return_scan check_shift shift_conflict shift_query
              (failed "Failed due to shift conflict")
              (λ x w, check_shift_run w x) shift_details w)
    as (w1 & _ & _ & Hrnd1 & [(_ & -> & _)|(? & ? & ? & _ & _ & _ & -> & _)]).
  - destruct (for_return_scan check_equipment equipment_conflict maintenance_query
                (failed "Failed due to equipment maintenance conflict")
                (λ x w, check_equipment_run w x) equipment_usage w1)
      as (w2 & _ & _ & Hrnd2 & [(_ & -> & _)|(? & ? & ? & _ & _ & _ & -> & _)]).
    + rewrite uuid4_run. simpl. eexists _, _. split; [done|]. right. right.
      simpl. by rewrite Hrnd2, Hrnd1.
    + simpl. eexists _, _. split; [done|]. by right; left.
  - simpl. eexists _, _. split; [done|]. by left.
Qed.

Lemma createSchedule_success_id (w : World) shift_details equipment_usage r :
  (createSchedule shift_details equipment_usage w).1 = Ret r →
  creation_status r = "Success" →
  schedule_id r = uuid.uuid_str (uuid.uuid4_int (urandom w)) ∧
  urandom (createSchedule shift_details equipment_usage w).2 =
    Z.shiftr (urandom w) 128.
Proof.
  destruct (createSchedule_run w shift_details equipment_usage)
    as (r0 & w' & -> & [-> | [-> | [-> Hrnd]]]); simpl.
  - by intros [= <-].
  - by intros [= <-].
  - by intros [= <-] _.
Qed.

(** C9.  When no requested shift overlaps a stored shift of its employee and
    no requested equipment usage overlaps an open maintenance window of its
    equipment, [createSchedule] returns the status [Success], a freshly
    generated identifier, and the submitted shifts and equipment usages as
    they were given; the store is not written.  The identifier has 36
    characters, so it is not empty.  It is fresh in that it is printed from
    sixteen bytes drawn from the random source for this call and used up by
    it, and the print tells the draws apart: a draw that gives the same
    identifier agrees with this one on all 122 bits that the version and the
    variant leave free.  So a later successful call, whatever its request,
    returns another identifier unless the random source repeats those bits. *)
Theorem createSchedule_success (w : World) (shift_details : list ShiftDetail)
    (equipment_usage : list EquipmentUsage) :
  Forall (λ shift, ¬ shift_conflict (db w) shift) shift_details →
  Forall (λ usage, ¬ equipment_conflict (db w) usage) equipment_usage →
  let out := createSchedule shift_details equipment_usage w in
  ∃ r, out.1 = Ret r ∧
       creation_status r = "Success" ∧
       schedule_id r = uuid.uuid_str (uuid.uuid4_int (urandom w)) ∧
       String.length (schedule_id r) = 36%nat ∧
       schedule_id r ≠ "" ∧
       shifts r = shift_details ∧
       used_equipment r = equipment_usage ∧
       db out.2 = db w ∧
       urandom out.2 = Z.shiftr (urandom w) 128 ∧
       (∀ random, uuid.uuid_str (uuid.uuid4_int random) = schedule_id r →
                  same_draw random (urandom w)) ∧
       (∀ shift_details' equipment_usage' r',
          (createSchedule shift_details' equipment_usage' out.2).1 = Ret r' →
          creation_status r' = "Success" →
          schedule_id r' = schedule_id r →
          same_draw (urandom out.2) (urandom w)).
Proof.
  intros Hshifts Husages out.
  assert (Hrun : ∃ r w', createSchedule shift_details equipment_usage w = (Ret r, w') ∧
            creation_status r = "Success" ∧ shifts r = shift_details ∧
            used_equipment r = equipment_usage ∧ db w' = db w).
  { unfold createSchedule, mbind, ST_bind.
    destruct (for_return_scan check_shift shift_conflict shift_query
                (failed "Failed due to shift conflict")
                (λ x w, check_shift_run w x) shift_details w)
      as (w1 & Hdb1 & _ & _ &
          [(_ & -> & _)|(pre & bad & post & Heq & _ & Hbad & _)]).
    - destruct (for_return_scan check_equipment equipment_conflict maintenance_query
                  (failed "Failed due to equipment maintenance conflict")
                  (λ x w, check_equipment_run w x) equipment_usage w1)
        as (w2 & Hdb2 & _ & _ &
            [(_ & -> & _)|(pre & bad & post & Heq & _ & Hbad & _)]).
      + rewrite uuid4_run. simpl.
        eexists _, _. split; [done|]. simpl. split_and!; try done. congruence.
      + rewrite Heq in Husages. rewrite Hdb1 in Hbad.
        by destruct (Forall_not_middle _ _ _ _ Husages).
    - rewrite Heq in Hshifts. by destruct (Forall_not_middle _ _ _ _ Hshifts). }
  destruct Hrun as (r & w' & Hrun & Hstatus & Hsh & Heu & Hdb).
  assert (Hout : out.1 = Ret r) by (subst out; by rewrite Hrun).
  destruct (createSchedule_success_id w shift_details equipment_usage r Hout Hstatus)
    as [Hid Hrnd].
  pose proof (uuid_str_length (uuid.uuid4_int (urandom w))) as Hlen.
  exists r. split_and!; try done.
  - by rewrite Hid.
  - intros Hempty. rewrite <- Hid, Hempty in Hlen. done.
  - subst out. by rewrite Hrun.
  - intros random Heq. apply uuid_str_same_draw. by rewrite Heq, Hid.
  - intros shift_details' equipment_usage' r' Hrun' Hstatus' Heq.
    destruct (createSchedule_success_id _ _ _ _ Hrun' Hstatus') as [Hid' _].
    apply uuid_str_same_draw. by rewrite <- Hid', Heq, Hid.
Qed.

Lemma createSchedule_success_witness :
  let w := seeded_world roster_store
             0x00112233445566778899aabbccddeefffedcba98765432100123456789abcdef in
  let shift_details := [ {| start_time := 20; end_time := 22; employee_id := "E" |};
                         {| start_time := 8; end_time := 16; employee_id := "F" |} ] in
  let equipment_usage := [ {| equipment_id := "saw1"; usage_start_time := 20;
                              usage_end_time := 30 |} ] in
  let out := createSchedule shift_details equipment_usage w in
  ∃ r, out.1 = Ret r ∧
       creation_status r = "Success" ∧
       schedule_id r = uuid.uuid_str (uuid.uuid4_int (urandom w)) ∧
       String.length (schedule_id r) = 36%nat ∧
       schedule_id r ≠ "" ∧
       shifts r = shift_details ∧
       used_equipment r = equipment_usage ∧
       db out.2 = db w ∧
       urandom out.2 = Z.shiftr (urandom w) 128 ∧
       (∀ random, uuid.uuid_str (uuid.uuid4_int random) = schedule_id r →
                  same_draw random (urandom w)) ∧
       (∀ shift_details' equipment_usage' r',
          (createSchedule shift_details' equipment_usage' out.2).1 = Ret r' →
          creation_status r' = "Success" →
          schedule_id r' = schedule_id r →
          same_draw (urandom out.2) (urandom w)).
Proof.
  intros w shift_details equipment_usage.
  apply (createSchedule_success w shift_details equipment_usage).
  - repeat constructor.
    + intros Hc.
      destruct (check_shift_run w {| start_time := 20; end_time := 22; employee_id := "E" |})
        as [[_ Hrun]|[Hno _]]; [|done]. vm_compute in Hrun. discriminate.
    + intros Hc.
      destruct (check_shift_run w {| start_time := 8; end_time := 16; employee_id := "F" |})
        as [[_ Hrun]|[Hno _]]; [|done]. vm_compute in Hrun. discriminate.
  - repeat constructor. intros Hc.
    destruct (check_equipment_run w {| equipment_id := "saw1"; usage_start_time := 20;
                                       usage_end_time := 30 |})
      as [[_ Hrun]|[Hno _]]; [|done]. vm_compute in Hrun. discriminate.
Defined.

(** Two calls in a row on a random source whose first and second sixteen
    bytes differ: the same request is answered with two identifiers. *)
Lemma createSchedule_twice_sample :
  let w := seeded_world roster_store
             0x00112233445566778899aabbccddeefffedcba98765432100123456789abcdef in
  let shift_details := [ {| start_time := 20; end_time := 22; employee_id := "E" |} ] in
  let first := createSchedule shift_details [] w in
  let second := createSchedule shift_details [] first.2 in
  first.1 = Ret {| schedule_id := "fedcba98-7654-4210-8123-456789abcdef";
                   shifts := shift_details; used_equipment := [];
                   creation_status := "Success" |} ∧
  second.1 = Ret {| schedule_id := "00112233-4455-4677-8899-aabbccddeeff";
                    shifts := shift_details; used_equipment := [];
                    creation_status := "Success" |}.
Proof. split; by vm_compute. Qed.

(** ** getCurrentMarketPrice *)

Section MarketPrice.

Import getCurrentMarketPrice_service.

Variable client_get : string → GetResult.
Variable float_of_str : string → option PrimFloat.float.
Variable fromisoformat_str : string → option Z.

(** [getCurrentMarketPrice] returns on every answer of the feed: the
    [except] clause takes every exception of the [try] block, and the
    response is built from the two local variables. *)
Lemma getCurrentMarketPrice_returns (request : GetMarketPriceRequest) (w : World) :
  ∃ r, getCurrentMarketPrice client_get float_of_str fromisoformat_str request w =
       (Ret r, w).
Proof.
  unfold getCurrentMarketPrice, datetime_now, mbind, ST_bind, mret, ST_ret.
  destruct (try_except _ _ _) as [o [market_price last_update]]. eauto.
Qed.

(** X18.  A failure before the price is assigned (the transport fails, the
    status is not a success, the body does not decode, the price is missing
    from it) gives the zero price and the time of the call. *)
Lemma getCurrentMarketPrice_degrades (request : GetMarketPriceRequest) (w : World) :
  let answer := client_get "https://api.example.com/marketprice/boardfoot" in
  let out := getCurrentMarketPrice client_get float_of_str fromisoformat_str request w in
  let degraded := (Ret {| market_price := 0%float; last_update := clock w |}, w) in
  (∀ msg, answer = TransportError msg → out = degraded) ∧
  (∀ status body, answer = HttpResponse status body →
     ¬ (200 ≤ status ≤ 299) → out = degraded) ∧
  (∀ status, answer = HttpResponse status None → out = degraded) ∧
  (∀ status members, answer = HttpResponse status (Some (JObject members)) →
     dict_get "market_price" members = None → out = degraded).
Proof.
  intros answer out degraded. subst answer out degraded.
  unfold getCurrentMarketPrice, datetime_now, try_except, try_block, raise_for_status,
    resp_json, subscript. run.
  split_and!.
  - intros msg ->. done.
  - intros status body -> Hstatus. rewrite bool_decide_eq_false_2 by done. done.
  - intros status ->. case_bool_decide; done.
  - intros status members -> ->. case_bool_decide; done.
Qed.

End MarketPrice.

(** C10.  [getCurrentMarketPrice] assigns the price before it reads the
    update time, inside one [try] block.  When the feed answers with a price
    and no usable update time, the failure comes after the assignment: the
    function returns the price of the feed, not zero, with the time of the
    call. *)
Theorem getCurrentMarketPrice_late_failure_keeps_price
    (float_of_str : string → option PrimFloat.float)
    (fromisoformat_str : string → option Z)
    (request : getCurrentMarketPrice_service.GetMarketPriceRequest) (w : World) :
  let body :=
    getCurrentMarketPrice_service.JObject
      [("market_price", getCurrentMarketPrice_service.JFloat 12.5)] in
  let feed := λ _ : string, getCurrentMarketPrice_service.HttpResponse 200 (Some body) in
  getCurrentMarketPrice_service.getCurrentMarketPrice feed float_of_str
    fromisoformat_str request w =
  (Ret {| getCurrentMarketPrice_service.market_price := 12.5%float;
          getCurrentMarketPrice_service.last_update := clock w |}, w).
Proof. reflexivity. Qed.

(** * Further properties of the modelled code *)

(** ** createOrder: what a served order does to the store *)

Lemma same_items_refl inv : same_items inv inv.
Proof. intros id. by destruct (inv !! id). Qed.

Lemma same_items_trans inv1 inv2 inv3 :
  same_items inv1 inv2 → same_items inv2 inv3 → same_items inv1 inv3.
Proof.
  intros H12 H23 id. specialize (H12 id). specialize (H23 id).
  destruct (inv1 !! id), (inv2 !! id), (inv3 !! id); try done.
  destruct H12, H23. split; congruence.
Qed.

Lemma same_items_set_quantity inv id it q :
  inv !! id = Some it → same_items inv (<[id := set_quantity q it]> inv).
Proof.
  intros Hlook id'. destruct (decide (id = id')) as [<-|Hne].
  - by rewrite lookup_insert_eq, Hlook.
  - rewrite lookup_insert_ne by done. by destruct (inv !! id').
Qed.

Lemma validate_pass_world items : ∀ w,
  Forall (in_stock (InventoryItem_t (db w))) items →
  ∃ w', for_each items validate_item w = (Ret tt, w') ∧ db w' = db w ∧
        id_gen w' = id_gen w.
Proof.
  induction items as [|item items IH]; intros w Hall; [by exists w|].
  apply Forall_cons in Hall as [Hitem Hall].
  destruct (IH (record_op (OpFindItem (inventoryItemId item)) w) Hall)
    as (w' & Hrun & Hdb & Hgen).
  exists w'. cbn [for_each]. unfold mbind, ST_bind.
  by rewrite (validate_item_in_stock _ _ Hitem), Hrun.
Qed.

(** The commit pass takes from every item the sum of the quantities of its
    lines. *)
Lemma commit_pass_totals items : ∀ w,
  ∃ w', for_each items decrement_item w = (Ret tt, w') ∧
        (∀ id, InventoryItem_t (db w') !! id =
               (λ it, set_quantity (item_quantity it - ordered id items) it) <$>
                 InventoryItem_t (db w) !! id) ∧
        db w' = set_InventoryItem_t (InventoryItem_t (db w')) (db w) ∧
        id_gen w' = id_gen w.
Proof.
  induction items as [|item items IH]; intros w.
  - exists w. split_and!; try done.
    + intros id. simpl. destruct (InventoryItem_t (db w) !! id) as [[]|]; simpl; [|done].
      unfold set_quantity. simpl. do 2 f_equal; lia.
    + by destruct (db w).
  - cbn [for_each]. unfold mbind, ST_bind.
    unfold decrement_item at 1, prisma.InventoryItem_update, mbind, ST_bind, mret, ST_ret.
    destruct (InventoryItem_t (db w) !! inventoryItemId item) as [it|] eqn:Hlook.
    + edestruct IH as (w' & -> & Hinv & Hdb & Hgen). exists w'.
      split_and!; [done | | by rewrite Hdb at 1 | done].
      intros id. rewrite Hinv. simpl.
      destruct (decide (inventoryItemId item = id)) as [<-|Hne].
      * rewrite lookup_insert_eq, Hlook. simpl. unfold set_quantity. simpl.
        do 2 f_equal; lia.
      * rewrite lookup_insert_ne by done.
        destruct (InventoryItem_t (db w) !! id); simpl; [|done].
        do 2 f_equal; lia.
    + edestruct IH as (w' & -> & Hinv & Hdb & Hgen). exists w'.
      split_and!; [done | | by rewrite Hdb at 1 | done].
      intros id. rewrite Hinv. simpl.
      destruct (decide (inventoryItemId item = id)) as [<-|Hne].
      * by rewrite Hlook.
      * destruct (InventoryItem_t (db w) !! id); simpl; [|done].
        do 2 f_equal; lia.
Qed.

(** X1.  A served order.  When every line is covered by the stock and the
    customer is known, [createOrder] returns the identifier of one new order
    row, appended with status [PENDING] for that customer, and every
    inventory item ends with its quantity reduced by the sum of the
    quantities of the lines that name it (items no line names keep theirs). *)
Theorem createOrder_served (w : World) (customerId : string)
    (items : list OrderItem) :
  Forall (in_stock (InventoryItem_t (db w))) items →
  customerId ∈ Customer_t (db w) →
  let out := createOrder customerId items w in
  let row := {| order_id := id_gen w (length (SalesOrder_t (db w)));
                order_customerId := customerId; order_status := PENDING |} in
  out.1 = Ret {| orderId := order_id row |} ∧
  SalesOrder_t (db out.2) = SalesOrder_t (db w) ++ [row] ∧
  ∀ id, InventoryItem_t (db out.2) !! id =
        (λ it, set_quantity (item_quantity it - ordered id items) it) <$>
          InventoryItem_t (db w) !! id.
Proof.
  intros Hall Hcust out row. subst out row. unfold createOrder, mbind, ST_bind.
  destruct (validate_pass_world items w Hall) as (w1 & -> & Hdb1 & Hgen1).
  destruct (commit_pass_totals items w1) as (w2 & -> & Hinv & Hdb2 & Hgen2).
  unfold prisma.SalesOrder_create.
  rewrite decide_True by (rewrite Hdb2, Hdb1; exact Hcust).
  simpl. rewrite Hgen2, Hgen1, Hdb2. simpl. rewrite Hdb1.
  split_and!; [done | done |]. intros id. rewrite <- Hdb1. apply Hinv.
Qed.

Lemma createOrder_served_witness :
  let w := world_of stock_store in
  let items := [ {| inventoryItemId := "A"; quantity := 2 |};
                 {| inventoryItemId := "B"; quantity := 1 |};
                 {| inventoryItemId := "A"; quantity := 3 |} ] in
  let out := createOrder "cust1" items w in
  let row := {| order_id := id_gen w (length (SalesOrder_t (db w)));
                order_customerId := "cust1"; order_status := PENDING |} in
  out.1 = Ret {| orderId := order_id row |} ∧
  SalesOrder_t (db out.2) = SalesOrder_t (db w) ++ [row] ∧
  ∀ id, InventoryItem_t (db out.2) !! id =
        (λ it, set_quantity (item_quantity it - ordered id items) it) <$>
          InventoryItem_t (db w) !! id.
Proof.
  intros w items.
  apply (createOrder_served w "cust1" items).
  - repeat constructor; vm_compute; discriminate.
  - by vm_compute.
Defined.

(** X2.  What [createOrder] never touches.  Whatever the request and whether
    it is served or refused, the shifts, the maintenance records, the
    equipment, the customers and the inventory log stay as they were, no
    inventory item is added, removed, renamed or retyped, and the orders
    already stored stay in place: at most one row is appended after them. *)
Theorem createOrder_frame (w : World) (customerId : string) (items : list OrderItem) :
  let out := createOrder customerId items w in
  same_planning (db w) (db out.2) ∧
  InventoryLog_t (db out.2) = InventoryLog_t (db w) ∧
  same_items (InventoryItem_t (db w)) (InventoryItem_t (db out.2)) ∧
  ∃ new, SalesOrder_t (db out.2) = SalesOrder_t (db w) ++ new ∧ (length new ≤ 1)%nat.
Proof.
  intros out. subst out.
  destruct (decide (Forall (in_stock (InventoryItem_t (db w))) items)) as [Hall|Hn].
  - unfold createOrder, mbind, ST_bind.
    destruct (validate_pass_world items w Hall) as (w1 & -> & Hdb1 & Hgen1).
    destruct (commit_pass_totals items w1) as (w2 & -> & Hinv & Hdb2 & Hgen2).
    assert (Hitems : same_items (InventoryItem_t (db w)) (InventoryItem_t (db w2))).
    { intros id. rewrite Hinv, Hdb1. by destruct (InventoryItem_t (db w) !! id). }
    unfold prisma.SalesOrder_create. case_decide; simpl; rewrite Hdb2; simpl; rewrite Hdb1.
    + split_and!; [done | done | done |]. eexists [_]. split; [done | simpl; lia].
    + split_and!; [done | done | done |]. exists []. split; [by rewrite app_nil_r | simpl; lia].
  - destruct (first_failure _ _ Hn) as (pre & bad & post & -> & Hpre & Hbad).
    destruct (validate_stop pre bad post w Hpre Hbad) as (w' & Hrun & Hdb & _).
    unfold createOrder, mbind, ST_bind. rewrite Hrun. simpl. rewrite Hdb.
    split_and!; [done | done | apply same_items_refl |].
    exists []. split; [by rewrite app_nil_r | simpl; lia].
Qed.

(** X3.  The empty order.  With no line items there is nothing to check and
    nothing to take: for a known customer [createOrder] still creates an
    order row, and the inventory is left exactly as it was. *)
Theorem createOrder_empty (w : World) (customerId : string) :
  customerId ∈ Customer_t (db w) →
  let out := createOrder customerId [] w in
  out.1 = Ret {| orderId := id_gen w (length (SalesOrder_t (db w))) |} ∧
  length (SalesOrder_t (db out.2)) = S (length (SalesOrder_t (db w))) ∧
  InventoryItem_t (db out.2) = InventoryItem_t (db w) ∧
  trace out.2 = trace w ++ [OpCreateOrder customerId].
Proof.
  intros Hcust out. subst out.
  unfold createOrder, prisma.SalesOrder_create. run.
  rewrite decide_True by done. simpl. rewrite length_app. simpl.
  split_and!; [done | lia | done | done].
Qed.

Lemma createOrder_empty_witness :
  let w := world_of stock_store in
  let out := createOrder "cust1" [] w in
  out.1 = Ret {| orderId := id_gen w (length (SalesOrder_t (db w))) |} ∧
  length (SalesOrder_t (db out.2)) = S (length (SalesOrder_t (db w))) ∧
  InventoryItem_t (db out.2) = InventoryItem_t (db w) ∧
  trace out.2 = trace w ++ [OpCreateOrder "cust1"].
Proof.
  intros w. apply (createOrder_empty w "cust1"). by vm_compute.
Defined.

(** ** useSparePart: bounds and frame *)

Lemma useSparePart_keeps_nonneg_witness :
  quantities_nonneg
    (InventoryItem_t (db (useSparePart "rec1"
       [ {| partId := "A"; quantityUsed := 4 |};
         {| partId := "A"; quantityUsed := 4 |} ] (world_of stock_store)).2)).
Proof.
  apply (useSparePart_keeps_nonneg (world_of stock_store)).
  apply map_Forall_insert_2; [simpl; lia|].
  apply map_Forall_singleton. simpl. lia.
Defined.

Lemma part_steps_same_items now inv parts inv' rem logs :
  part_steps now inv parts inv' rem logs → same_items inv inv'.
Proof.
  induction 1 as [inv|inv part it parts inv' rem logs Hlook Hq Hsteps IH|]; [| |done].
  - apply same_items_refl.
  - eapply same_items_trans; [|exact IH]. by apply same_items_set_quantity.
Qed.

Lemma part_steps_no_rise now inv parts inv' rem logs :
  part_steps now inv parts inv' rem logs →
  Forall (λ p, 0 ≤ quantityUsed p) parts →
  ∀ id it it', inv !! id = Some it → inv' !! id = Some it' →
               item_quantity it' ≤ item_quantity it.
Proof.
  induction 1 as [inv|inv part it0 parts inv' rem logs Hlook Hq Hsteps IH
                 |inv part parts inv' rem logs Hshort Hsteps IH];
    intros Hpos id it it' Hit Hit'.
  - simplify_eq. lia.
  - apply Forall_cons in Hpos as [Hp Hpos].
    destruct (decide (partId part = id)) as [<-|Hne].
    + simplify_eq.
      specialize (IH Hpos (partId part) _ it' (lookup_insert_eq _ _ _) Hit').
      simpl in IH. lia.
    + apply (IH Hpos id it it'); [|done]. by rewrite lookup_insert_ne.
  - apply Forall_cons in Hpos as [_ Hpos]. by apply (IH Hpos id).
Qed.

(** The run of [useSparePart] for a record that exists, in one place. *)
Lemma useSparePart_run (w : World) recordId parts record :
  MaintenanceLog_t (db w) !! recordId = Some record →
  ∃ w' inv' rem logs,
    part_steps (clock w) (InventoryItem_t (db w)) parts inv' rem logs ∧
    useSparePart recordId parts w =
      (Ret {| useSparePart_service.success := bool_decide (length rem = length parts);
              updatedRecord := record; remainingInventory := rem |}, w') ∧
    db w' = set_InventoryLog_t (InventoryLog_t (db w) ++ logs)
              (set_InventoryItem_t inv' (db w)).
Proof.
  intros Hrec.
  unfold useSparePart, prisma.MaintenanceLog_find_unique, mbind, ST_bind. simpl.
  rewrite Hrec.
  destruct (use_parts_loop parts (record_op (OpFindMaintenanceLog recordId) w) [] true)
    as (w' & inv' & rem & logs & ops & Hsteps & -> & Hdb & _).
  simpl in *. rewrite Hdb. simpl. rewrite Hrec. simpl.
  eexists _, inv', rem, logs. split_and!; [done | done | done].
Qed.

Lemma useSparePart_missing (w : World) recordId parts :
  MaintenanceLog_t (db w) !! recordId = None →
  useSparePart recordId parts w =
    (Raise (ValidationError "MaintenancePartsLogResponse" "updatedRecord"),
     record_op (OpFindMaintenanceLog recordId) w).
Proof.
  intros Hrec.
  unfold useSparePart, prisma.MaintenanceLog_find_unique, mbind, ST_bind. simpl.
  by rewrite Hrec.
Qed.

(** X5.  What [useSparePart] never touches.  Whatever the request, the
    shifts, the maintenance records, the equipment, the customers and the
    orders stay as they were, and no inventory item is added, removed,
    renamed or retyped: only quantities and the log change. *)
Theorem useSparePart_frame (w : World) (recordId : string) (parts : list PartUsage) :
  let out := useSparePart recordId parts w in
  same_planning (db w) (db out.2) ∧
  SalesOrder_t (db out.2) = SalesOrder_t (db w) ∧
  same_items (InventoryItem_t (db w)) (InventoryItem_t (db out.2)).
Proof.
  intros out. subst out.
  destruct (MaintenanceLog_t (db w) !! recordId) as [record|] eqn:Hrec.
  - destruct (useSparePart_run w recordId parts record Hrec)
      as (w' & inv' & rem & logs & Hsteps & -> & Hdb).
    simpl. rewrite Hdb. simpl. split_and!; [done | done |].
    by apply (part_steps_same_items _ _ _ _ _ _ Hsteps).
  - rewrite (useSparePart_missing w recordId parts Hrec). simpl.
    split_and!; [done | done | apply same_items_refl].
Qed.

(** X6.  With usages that are not negative, [useSparePart] never raises a
    quantity: every item ends at or below the quantity it had. *)
Theorem useSparePart_no_rise (w : World) (recordId : string) (parts : list PartUsage) :
  Forall (λ p, 0 ≤ quantityUsed p) parts →
  ∀ id it it',
    InventoryItem_t (db w) !! id = Some it →
    InventoryItem_t (db (useSparePart recordId parts w).2) !! id = Some it' →
    item_quantity it' ≤ item_quantity it.
Proof.
  intros Hpos id it it' Hit.
  destruct (MaintenanceLog_t (db w) !! recordId) as [record|] eqn:Hrec.
  - destruct (useSparePart_run w recordId parts record Hrec)
      as (w' & inv' & rem & logs & Hsteps & -> & Hdb).
    simpl. rewrite Hdb. simpl. intros Hit'.
    by apply (part_steps_no_rise _ _ _ _ _ _ Hsteps Hpos id it it').
  - rewrite (useSparePart_missing w recordId parts Hrec). simpl.
    intros Hit'. simplify_eq. lia.
Qed.

Lemma useSparePart_no_rise_witness :
  item_quantity (item "oak board" 1) ≤ item_quantity (item "oak board" 5).
Proof.
  apply (useSparePart_no_rise (world_of stock_store) "rec1"
           [ {| partId := "A"; quantityUsed := 4 |};
             {| partId := "A"; quantityUsed := 4 |} ]
           ltac:(repeat constructor; simpl; lia) "A").
  - by vm_compute.
  - by vm_compute.
Defined.

(** X7.  The handler of [POST /maintenance/{id}/parts] answers with the
    payload of [useSparePart], not with an error response, whenever the
    maintenance record exists: neither a missing part nor a part out of stock
    is an error. *)
Theorem api_post_useSparePart_payload (w : World) (recordId : string)
    (parts : list PartUsage) (record : MaintenanceLog) :
  MaintenanceLog_t (db w) !! recordId = Some record →
  ∃ r, server_routes.api_post_useSparePart recordId parts w =
         (Ret (inl r), (useSparePart recordId parts w).2) ∧
       (useSparePart recordId parts w).1 = Ret r ∧
       updatedRecord r = record.
Proof.
  intros Hrec.
  destruct (useSparePart_run w recordId parts record Hrec)
    as (w' & inv' & rem & logs & Hsteps & Hrun & Hdb).
  unfold server_routes.api_post_useSparePart, try_except, mbind, ST_bind.
  rewrite Hrun. simpl. eauto.
Qed.

Lemma api_post_useSparePart_payload_witness :
  let w := world_of stock_store in
  let parts := [ {| partId := "missing"; quantityUsed := 1 |};
                 {| partId := "B"; quantityUsed := 7 |} ] in
  ∃ r, server_routes.api_post_useSparePart "rec1" parts w =
         (Ret (inl r), (useSparePart "rec1" parts w).2) ∧
       (useSparePart "rec1" parts w).1 = Ret r ∧
       updatedRecord r =
         {| ml_equipmentId := "saw1"; ml_startTime := 0; ml_endTime := 10;
            ml_completionDate := Some 10 |}.
Proof.
  intros w parts.
  apply (api_post_useSparePart_payload w "rec1" parts). by vm_compute.
Defined.

(** X8.  For a maintenance record that does not exist, the failure response
    of [useSparePart] is built without a record, which its declaration does
    not admit: the call raises [ValidationError] after the one lookup.  The
    handler of the route returns nothing for it: its [except] branch raises
    [AttributeError] while it constructs the [Response], and that exception
    leaves the handler.  The store is left as it was. *)
Theorem api_post_useSparePart_missing_record (w : World) (recordId : string)
    (parts : list PartUsage) :
  MaintenanceLog_t (db w) !! recordId = None →
  let svc := useSparePart recordId parts w in
  let out := server_routes.api_post_useSparePart recordId parts w in
  svc.1 = Raise (ValidationError "MaintenancePartsLogResponse" "updatedRecord") ∧
  out.1 = Raise (AttributeError "'dict' object has no attribute 'encode'") ∧
  trace out.2 = trace w ++ [OpFindMaintenanceLog recordId] ∧
  db out.2 = db w.
Proof.
  intros Hrec svc out. subst svc out.
  assert (Hout : server_routes.api_post_useSparePart recordId parts w =
                 (Raise (AttributeError "'dict' object has no attribute 'encode'"),
                  record_op (OpFindMaintenanceLog recordId) w)).
  { unfold server_routes.api_post_useSparePart, try_except.
    unfold mbind at 1, ST_bind at 1.
    by rewrite (useSparePart_missing w recordId parts Hrec). }
  rewrite Hout, (useSparePart_missing w recordId parts Hrec). done.
Qed.

Lemma api_post_useSparePart_missing_record_witness :
  let w := world_of stock_store in
  let parts := [ {| partId := "A"; quantityUsed := 1 |} ] in
  let svc := useSparePart "no-such-record" parts w in
  let out := server_routes.api_post_useSparePart "no-such-record" parts w in
  svc.1 = Raise (ValidationError "MaintenancePartsLogResponse" "updatedRecord") ∧
  out.1 = Raise (AttributeError "'dict' object has no attribute 'encode'") ∧
  trace out.2 = trace w ++ [OpFindMaintenanceLog "no-such-record"] ∧
  db out.2 = db w.
Proof.
  intros w parts.
  apply (api_post_useSparePart_missing_record w "no-such-record" parts).
  by vm_compute.
Defined.

(** ** createSchedule: the second phase, and which intervals conflict *)

(** [createSchedule] never raises: it returns one of its two failure
    responses, or the success response with the inputs. *)
Lemma createSchedule_returns (w : World) shift_details equipment_usage :
  ∃ r w', createSchedule shift_details equipment_usage w = (Ret r, w') ∧
    (r = failed "Failed due to shift conflict" ∨
     r = failed "Failed due to equipment maintenance conflict" ∨
     (creation_status r = "Success" ∧ shifts r = shift_details ∧
      used_equipment r = equipment_usage ∧ String.length (schedule_id r) = 36%nat)).
Proof.
  unfold createSchedule, mbind, ST_bind.
  destruct (for_return_scan check_shift shift_conflict shift_query
              (failed "Failed due to shift conflict")
              (λ x w, check_shift_run w x) shift_details w)
    as (w1 & _ & _ & _ & [(_ & -> & _)|(? & ? & ? & _ & _ & _ & -> & _)]).
  - destruct (for_return_scan check_equipment equipment_conflict maintenance_query
                (failed "Failed due to equipment maintenance conflict")
                (λ x w, check_equipment_run w x) equipment_usage w1)
      as (w2 & _ & _ & _ & [(_ & -> & _)|(? & ? & ? & _ & _ & _ & -> & _)]).
    + simpl. eexists _, _. split; [done|]. right. right. simpl.
      split_and!; done.
    + simpl. eexists _, _. split; [done|]. by right; left.
  - simpl. eexists _, _. split; [done|]. by left.
Qed.

(** X9.  The second phase of [createSchedule].  When no requested shift
    conflicts and some requested equipment usage overlaps an open maintenance
    window of its equipment, the call returns the equipment-conflict failure
    with nothing written, having queried all the shifts and then the usages
    up to and including the first conflicting one, in input order. *)
Theorem createSchedule_equipment_conflict (w : World)
    (shift_details : list ShiftDetail) (equipment_usage : list EquipmentUsage) :
  Forall (λ shift, ¬ shift_conflict (db w) shift) shift_details →
  Exists (equipment_conflict (db w)) equipment_usage →
  let out := createSchedule shift_details equipment_usage w in
  ∃ pre bad post,
    equipment_usage = pre ++ bad :: post ∧
    Forall (λ usage, ¬ equipment_conflict (db w) usage) pre ∧
    equipment_conflict (db w) bad ∧
    out.1 = Ret (failed "Failed due to equipment maintenance conflict") ∧
    db out.2 = db w ∧
    trace out.2 = trace w ++ (shift_query <$> shift_details) ++
                             (maintenance_query <$> (pre ++ [bad])).
Proof.
  intros Hshifts Hex out. subst out. unfold createSchedule, mbind, ST_bind.
  destruct (for_return_scan check_shift shift_conflict shift_query
              (failed "Failed due to shift conflict")
              (λ x w, check_shift_run w x) shift_details w)
    as (w1 & Hdb1 & _ & _ &
        [(_ & -> & Htr1)|(pre & bad & post & Heq & _ & Hbad & _)]).
  - destruct (for_return_scan check_equipment equipment_conflict maintenance_query
                (failed "Failed due to equipment maintenance conflict")
                (λ x w, check_equipment_run w x) equipment_usage w1)
      as (w2 & Hdb2 & _ & _ &
          [(Hall & _)|(pre & bad & post & Heq & Hpre & Hbad & -> & Htr2)]).
    + rewrite Hdb1 in Hall. by destruct (Forall_not_Exists_not _ _ Hall).
    + rewrite Hdb1 in Hpre, Hbad. simpl. exists pre, bad, post.
      split_and!; try done; [congruence|]. by rewrite Htr2, Htr1, <- app_assoc.
  - rewrite Heq in Hshifts. by destruct (Forall_not_middle _ _ _ _ Hshifts).
Qed.

Lemma createSchedule_equipment_conflict_witness :
  let w := world_of roster_store in
  let shift_details := [ {| start_time := 20; end_time := 22; employee_id := "E" |} ] in
  let equipment_usage := [ {| equipment_id := "saw1"; usage_start_time := 10;
                              usage_end_time := 30 |};
                           {| equipment_id := "saw1"; usage_start_time := 39;
                              usage_end_time := 45 |} ] in
  let out := createSchedule shift_details equipment_usage w in
  ∃ pre bad post,
    equipment_usage = pre ++ bad :: post ∧
    Forall (λ usage, ¬ equipment_conflict (db w) usage) pre ∧
    equipment_conflict (db w) bad ∧
    out.1 = Ret (failed "Failed due to equipment maintenance conflict") ∧
    db out.2 = db w ∧
    trace out.2 = trace w ++ (shift_query <$> shift_details) ++
                             (maintenance_query <$> (pre ++ [bad])).
Proof.
  intros w shift_details equipment_usage.
  apply (createSchedule_equipment_conflict w shift_details equipment_usage).
  - repeat constructor. intros Hc.
    destruct (check_shift_run w {| start_time := 20; end_time := 22; employee_id := "E" |})
      as [[_ Hrun]|[Hno _]]; [|done]. vm_compute in Hrun. discriminate.
  - apply Exists_cons_tl, Exists_cons_hd.
    exists "m1", {| ml_equipmentId := "saw1"; ml_startTime := 30;
                    ml_endTime := 40; ml_completionDate := None |}.
    split_and!; [by vm_compute | done | done | simpl; lia | simpl; lia].
Defined.

(** X10.  The handler of [POST /schedules] never answers with an error
    response: [createSchedule] does not raise, and the payload carries one
    of three statuses, the two failures with an empty identifier and empty
    lists, the success with a 36-character identifier and the inputs. *)
Theorem api_post_createSchedule_payload (w : World)
    (shift_details : list ShiftDetail) (equipment_usage : list EquipmentUsage) :
  ∃ r w', server_routes.api_post_createSchedule shift_details equipment_usage w =
            (Ret (inl r), w') ∧
    db w' = db w ∧
    (r = failed "Failed due to shift conflict" ∨
     r = failed "Failed due to equipment maintenance conflict" ∨
     (creation_status r = "Success" ∧ shifts r = shift_details ∧
      used_equipment r = equipment_usage ∧ String.length (schedule_id r) = 36%nat)).
Proof.
  destruct (createSchedule_returns w shift_details equipment_usage)
    as (r & w' & Hrun & Hcases).
  exists r, w'. unfold server_routes.api_post_createSchedule, try_except, mbind, ST_bind.
  rewrite Hrun. simpl. split_and!; [done | | done].
  destruct (for_return_scan check_shift shift_conflict shift_query
              (failed "Failed due to shift conflict")
              (λ x w, check_shift_run w x) shift_details w)
    as (w1 & Hdb1 & _ & _ & Hshift).
  destruct (for_return_scan check_equipment equipment_conflict maintenance_query
              (failed "Failed due to equipment maintenance conflict")
              (λ x w, check_equipment_run w x) equipment_usage w1)
    as (w2 & Hdb2 & _ & _ & Hequip).
  revert Hrun. unfold createSchedule, mbind, ST_bind.
  destruct Hshift as [(_ & -> & _)|(? & ? & ? & _ & _ & _ & -> & _)]; simpl.
  - destruct Hequip as [(_ & -> & _)|(? & ? & ? & _ & _ & _ & -> & _)]; simpl;
      intros [= <- <-]; simpl; congruence.
  - intros [= <- <-]. done.
Qed.

(** X11.  Which stored shifts block a requested shift.  A single requested
    shift is accepted exactly when every stored shift is of another
    employee, or ends at or before the start of the request, or starts at or
    after its end: shifts that only touch do not conflict. *)
Theorem createSchedule_shift_accepted_iff (w : World) (shift : ShiftDetail) :
  (∃ r, (createSchedule [shift] [] w).1 = Ret r ∧ creation_status r = "Success") ↔
  ∀ id r, Shift_t (db w) !! id = Some r →
          row_employeeId r ≠ employee_id shift ∨
          row_endTime r ≤ start_time shift ∨ end_time shift ≤ row_startTime r.
Proof.
  unfold createSchedule, mbind, ST_bind. cbn [for_return]. unfold mbind, ST_bind.
  destruct (check_shift_run w shift)
    as [[(id & r & Hlook & Hemp & Hlt & Hgt) ->]|[Hno ->]]; simpl.
  - split.
    + intros (r' & [= <-] & Hstatus). done.
    + intros Hall. destruct (Hall id r Hlook) as [?|[?|?]]; [done | lia | lia].
  - split; [|by eauto]. intros _ id r Hlook.
    destruct (decide (row_employeeId r = employee_id shift)) as [Hemp|]; [|by left].
    right. destruct (decide (row_endTime r ≤ start_time shift)); [by left|right].
    destruct (decide (end_time shift ≤ row_startTime r)); [done|].
    destruct Hno. exists id, r. split_and!; [done | done | lia | lia].
Qed.

(** X12.  A request for the very interval of a stored shift of positive
    length, for the same employee, is refused with the shift-conflict
    failure, whatever else the request holds after it. *)
Theorem createSchedule_same_interval_conflicts (w : World) (id : string)
    (r : ShiftRow) (others : list ShiftDetail) (equipment_usage : list EquipmentUsage) :
  Shift_t (db w) !! id = Some r →
  row_startTime r < row_endTime r →
  (createSchedule
     ({| start_time := row_startTime r; end_time := row_endTime r;
         employee_id := row_employeeId r |} :: others) equipment_usage w).1 =
  Ret (failed "Failed due to shift conflict").
Proof.
  intros Hlook Hlen.
  unfold createSchedule, mbind, ST_bind. cbn [for_return]. unfold mbind, ST_bind.
  destruct (check_shift_run w {| start_time := row_startTime r; end_time := row_endTime r;
                                 employee_id := row_employeeId r |})
    as [[_ ->]|[Hno _]]; [done|].
  destruct Hno. exists id, r. simpl. split_and!; [done | done | lia | lia].
Qed.

Lemma createSchedule_same_interval_conflicts_witness :
  (createSchedule
     [ {| start_time := 8; end_time := 16; employee_id := "E" |};
       {| start_time := 30; end_time := 31; employee_id := "F" |} ] []
     (world_of roster_store)).1 =
  Ret (failed "Failed due to shift conflict").
Proof.
  apply (createSchedule_same_interval_conflicts (world_of roster_store) "s1"
           {| row_startTime := 8; row_endTime := 16; row_employeeId := "E";
              row_Equipment := [] |}).
  - by vm_compute.
  - simpl. lia.
Defined.

(** X13.  Which maintenance records block a requested equipment usage.  With
    no shifts requested, a single usage is accepted exactly when every
    maintenance record is of other equipment, or is completed, or ends at or
    before the start of the usage, or starts at or after its end: completed
    maintenance never blocks the equipment. *)
Theorem createSchedule_usage_accepted_iff (w : World) (usage : EquipmentUsage) :
  (∃ r, (createSchedule [] [usage] w).1 = Ret r ∧ creation_status r = "Success") ↔
  ∀ id r, MaintenanceLog_t (db w) !! id = Some r →
          ml_equipmentId r ≠ equipment_id usage ∨ ml_completionDate r ≠ None ∨
          ml_endTime r ≤ usage_start_time usage ∨
          usage_end_time usage ≤ ml_startTime r.
Proof.
  unfold createSchedule, mbind, ST_bind. cbn [for_return]. unfold mbind, ST_bind.
  simpl.
  destruct (check_equipment_run w usage)
    as [[(id & r & Hlook & Heq & Hopen & Hlt & Hgt) ->]|[Hno ->]]; simpl.
  - split.
    + intros (r' & [= <-] & Hstatus). done.
    + intros Hall. destruct (Hall id r Hlook) as [?|[?|[?|?]]]; [done | done | lia | lia].
  - split; [|by eauto]. intros _ id r Hlook.
    destruct (decide (ml_equipmentId r = equipment_id usage)) as [Heq|]; [|by left].
    right. destruct (ml_completionDate r) as [d|] eqn:Hopen; [by left|right].
    destruct (decide (ml_endTime r ≤ usage_start_time usage)); [by left|right].
    destruct (decide (usage_end_time usage ≤ ml_startTime r)); [done|].
    destruct Hno. exists id, r. split_and!; [done | done | done | lia | lia].
Qed.

(** ** updateSchedule: the update it makes *)

Lemma updateSchedule_run (w : World) scheduleId s e equipmentId plan r :
  Shift_t (db w) !! scheduleId = Some r →
  equipmentId ∈ Equipment_t (db w) →
  ∃ w',
    updateSchedule_service.updateSchedule scheduleId s e equipmentId plan w =
      (Ret {| updateSchedule_service.success := true;
              updateSchedule_service.message := "Shift was successfully updated.";
              updateSchedule_service.updatedSchedule :=
                {| updateSchedule_service.startTime := s;
                   updateSchedule_service.endTime := e;
                   updateSchedule_service.employeeId := row_employeeId r;
                   updateSchedule_service.equipmentId := [equipmentId] |} |}, w') ∧
    db w' =
      set_Shift_t
        (<[scheduleId := {| row_startTime := s; row_endTime := e;
                            row_employeeId := row_employeeId r;
                            row_Equipment := row_Equipment r ++ [equipmentId] |}]>
           (Shift_t (db w)))
        (db w).
Proof.
  intros Hlook Hequip.
  unfold updateSchedule_service.updateSchedule, prisma.Shift_find_unique,
    prisma.Shift_update, updateSchedule_service.ScheduleUpdateResponse_new. run.
  rewrite Hlook. simpl. rewrite Hlook. rewrite decide_True by done. simpl.
  eexists. split; done.
Qed.

(** X14.  For a shift that exists and equipment the store knows,
    [updateSchedule] succeeds whatever the new times are (it compares them
    with nothing, not even with each other): the response carries the new
    times, the employee of the stored shift and the equipment; in the store
    that one shift gets the new times and the equipment connected, and every
    other shift and every other table is as before. *)
Theorem updateSchedule_moves_shift (w : World) (scheduleId : string) (s e : Z)
    (equipmentId plan : string) (r : ShiftRow) :
  Shift_t (db w) !! scheduleId = Some r →
  equipmentId ∈ Equipment_t (db w) →
  let out := updateSchedule_service.updateSchedule scheduleId s e equipmentId plan w in
  let r' := {| row_startTime := s; row_endTime := e;
               row_employeeId := row_employeeId r;
               row_Equipment := row_Equipment r ++ [equipmentId] |} in
  out.1 = Ret {| updateSchedule_service.success := true;
                 updateSchedule_service.message := "Shift was successfully updated.";
                 updateSchedule_service.updatedSchedule :=
                   {| updateSchedule_service.startTime := s;
                      updateSchedule_service.endTime := e;
                      updateSchedule_service.employeeId := row_employeeId r;
                      updateSchedule_service.equipmentId := [equipmentId] |} |} ∧
  Shift_t (db out.2) !! scheduleId = Some r' ∧
  (∀ other, other ≠ scheduleId → Shift_t (db out.2) !! other = Shift_t (db w) !! other) ∧
  db out.2 = set_Shift_t (Shift_t (db out.2)) (db w).
Proof.
  intros Hlook Hequip out r'. subst out r'.
  destruct (updateSchedule_run w scheduleId s e equipmentId plan r Hlook Hequip)
    as (w' & -> & Hdb).
  simpl. rewrite Hdb. simpl. split_and!; [done | | | done].
  - by rewrite lookup_insert_eq.
  - intros other Hne. by rewrite lookup_insert_ne.
Qed.

Lemma updateSchedule_moves_shift_witness :
  let w := world_of roster_store in
  let out := updateSchedule_service.updateSchedule "s1" 7 3 "saw1" "plan" w in
  let r' := {| row_startTime := 7; row_endTime := 3; row_employeeId := "E";
               row_Equipment := ["saw1"] |} in
  out.1 = Ret {| updateSchedule_service.success := true;
                 updateSchedule_service.message := "Shift was successfully updated.";
                 updateSchedule_service.updatedSchedule :=
                   {| updateSchedule_service.startTime := 7;
                      updateSchedule_service.endTime := 3;
                      updateSchedule_service.employeeId := "E";
                      updateSchedule_service.equipmentId := ["saw1"] |} |} ∧
  Shift_t (db out.2) !! "s1" = Some r' ∧
  (∀ other, other ≠ "s1" → Shift_t (db out.2) !! other = Shift_t (db w) !! other) ∧
  db out.2 = set_Shift_t (Shift_t (db out.2)) (db w).
Proof.
  intros w.
  apply (updateSchedule_moves_shift w "s1" 7 3 "saw1" "plan"
           {| row_startTime := 8; row_endTime := 16; row_employeeId := "E";
              row_Equipment := [] |}); by vm_compute.
Defined.

(** X15.  An update is seen by the conflict check.  After [updateSchedule]
    has moved a shift to an interval of positive length, a request to
    [createSchedule] for that employee and that interval is refused with the
    shift-conflict failure. *)
Theorem updateSchedule_then_createSchedule (w : World) (scheduleId : string)
    (s e : Z) (equipmentId plan : string) (r : ShiftRow)
    (others : list ShiftDetail) (equipment_usage : list EquipmentUsage) :
  Shift_t (db w) !! scheduleId = Some r →
  equipmentId ∈ Equipment_t (db w) →
  s < e →
  let w' := (updateSchedule_service.updateSchedule scheduleId s e equipmentId plan w).2 in
  (createSchedule
     ({| start_time := s; end_time := e; employee_id := row_employeeId r |} :: others)
     equipment_usage w').1 =
  Ret (failed "Failed due to shift conflict").
Proof.
  intros Hlook Hequip Hlen w'. subst w'.
  destruct (updateSchedule_run w scheduleId s e equipmentId plan r Hlook Hequip)
    as (w' & -> & Hdb).
  simpl. unfold createSchedule, mbind, ST_bind. cbn [for_return]. unfold mbind, ST_bind.
  destruct (check_shift_run w' {| start_time := s; end_time := e;
                                  employee_id := row_employeeId r |})
    as [[_ ->]|[Hno _]]; [done|].
  destruct Hno. eexists scheduleId, _. rewrite Hdb. simpl.
  rewrite lookup_insert_eq. split_and!; [done | done | simpl; lia | simpl; lia].
Qed.

Lemma updateSchedule_then_createSchedule_witness :
  let w := world_of roster_store in
  let w' := (updateSchedule_service.updateSchedule "s2" 40 45 "saw1" "plan" w).2 in
  (createSchedule [ {| start_time := 40; end_time := 45; employee_id := "E" |} ] [] w').1 =
  Ret (failed "Failed due to shift conflict").
Proof.
  intros w.
  apply (updateSchedule_then_createSchedule w "s2" 40 45 "saw1" "plan"
           {| row_startTime := 16; row_endTime := 20; row_employeeId := "E";
              row_Equipment := [] |} [] []); [by vm_compute | by vm_compute | lia].
Defined.

(** X16.  For a schedule identifier that names no shift, [updateSchedule]
    builds its failure response without a schedule, which the declaration of
    the response does not admit: the call raises [ValidationError] after the
    one lookup.  The handler of [PUT /schedules/{id}] returns nothing for
    it: its [except] branch raises [AttributeError] while it constructs the
    [Response], and that exception leaves the handler.  The store is left as
    it was. *)
Theorem api_put_updateSchedule_missing (w : World) (scheduleId : string) (s e : Z)
    (equipmentId plan : string) :
  Shift_t (db w) !! scheduleId = None →
  let svc := updateSchedule_service.updateSchedule scheduleId s e equipmentId plan w in
  let out := server_routes.api_put_updateSchedule scheduleId s e equipmentId plan w in
  svc.1 = Raise (ValidationError "ScheduleUpdateResponse" "updatedSchedule") ∧
  out.1 = Raise (AttributeError "'dict' object has no attribute 'encode'") ∧
  trace out.2 = trace w ++ [OpFindShift scheduleId] ∧
  db out.2 = db w.
Proof.
  intros Hnone svc out. subst svc out.
  assert (Hout : server_routes.api_put_updateSchedule scheduleId s e equipmentId plan w =
                 (Raise (AttributeError "'dict' object has no attribute 'encode'"),
                  record_op (OpFindShift scheduleId) w)).
  { unfold server_routes.api_put_updateSchedule, try_except.
    unfold mbind at 1, ST_bind at 1.
    by rewrite (updateSchedule_missing_shift w scheduleId s e equipmentId plan Hnone). }
  rewrite Hout, (updateSchedule_missing_shift w scheduleId s e equipmentId plan Hnone).
  done.
Qed.

Lemma api_put_updateSchedule_missing_witness :
  let w := world_of roster_store in
  let svc := updateSchedule_service.updateSchedule "s9" 1 2 "saw1" "plan" w in
  let out := server_routes.api_put_updateSchedule "s9" 1 2 "saw1" "plan" w in
  svc.1 = Raise (ValidationError "ScheduleUpdateResponse" "updatedSchedule") ∧
  out.1 = Raise (AttributeError "'dict' object has no attribute 'encode'") ∧
  trace out.2 = trace w ++ [OpFindShift "s9"] ∧
  db out.2 = db w.
Proof.
  intros w. apply (api_put_updateSchedule_missing w "s9" 1 2 "saw1" "plan").
  by vm_compute.
Defined.

(** ** getCurrentMarketPrice: the answers of the feed *)

Lemma getCurrentMarketPrice_degrades_witness :
  let request := getCurrentMarketPrice_service.Build_GetMarketPriceRequest in
  let w := world_of stock_store in
  getCurrentMarketPrice_service.getCurrentMarketPrice
    (λ _, getCurrentMarketPrice_service.HttpResponse 503 None)
    (λ _, None) (λ _, None) request w =
  (Ret {| getCurrentMarketPrice_service.market_price := 0%float;
          getCurrentMarketPrice_service.last_update := clock w |}, w).
Proof.
  intros request w.
  apply (proj1 (proj2 (getCurrentMarketPrice_degrades
           (λ _, getCurrentMarketPrice_service.HttpResponse 503 None)
           (λ _, None) (λ _, None) request w)) 503 None); [done | lia].
Defined.

(** The conversion on samples: a small integer is kept, [2^53 + 1] lies
    between two doubles and goes to the even one, the largest double is
    reached from just below the halfway point to [2^1024], and from that
    point on there is no double. *)
Lemma double_of_int_samples :
  getCurrentMarketPrice_service.double_of_int 5 = Some 5%float ∧
  getCurrentMarketPrice_service.double_of_int (2 ^ 53 + 1) =
    Some 9007199254740992%float ∧
  getCurrentMarketPrice_service.double_of_int (2 ^ 1024 - 2 ^ 970 - 1) =
    Some 0x1.fffffffffffffp+1023%float ∧
  getCurrentMarketPrice_service.double_of_int (2 ^ 1024 - 2 ^ 970) = None ∧
  getCurrentMarketPrice_service.double_of_int (10 ^ 400) = None.
Proof. split_and!; by vm_compute. Qed.

(** X19.  When the feed answers with a success status and a body whose
    [last_update] is a string the date parser accepts, the price returned
    with that time is the [market_price] of the body as a double: the very
    double when the body gives a [float], and the nearest double when it
    gives an [int] within the range of the doubles.  For an [int] beyond
    that range the conversion raises, inside the [try] block and before the
    assignment, and the function returns the zero price and the time of the
    call. *)
Theorem getCurrentMarketPrice_success
    (client_get : string → getCurrentMarketPrice_service.GetResult)
    (float_of_str : string → option PrimFloat.float)
    (fromisoformat_str : string → option Z)
    (request : getCurrentMarketPrice_service.GetMarketPriceRequest) (w : World)
    (status : Z) (members : list (string * getCurrentMarketPrice_service.json))
    (v : getCurrentMarketPrice_service.json) (s : string) (t : Z) :
  client_get "https://api.example.com/marketprice/boardfoot" =
    getCurrentMarketPrice_service.HttpResponse status
      (Some (getCurrentMarketPrice_service.JObject members)) →
  200 ≤ status ≤ 299 →
  getCurrentMarketPrice_service.dict_get "market_price" members = Some v →
  getCurrentMarketPrice_service.dict_get "last_update" members =
    Some (getCurrentMarketPrice_service.JString s) →
  fromisoformat_str s = Some t →
  let out := getCurrentMarketPrice_service.getCurrentMarketPrice client_get
               float_of_str fromisoformat_str request w in
  (∀ x, v = getCurrentMarketPrice_service.JFloat x →
     out = (Ret {| getCurrentMarketPrice_service.market_price := x;
                   getCurrentMarketPrice_service.last_update := t |}, w)) ∧
  (∀ n x, v = getCurrentMarketPrice_service.JInt n →
     getCurrentMarketPrice_service.double_of_int n = Some x →
     out = (Ret {| getCurrentMarketPrice_service.market_price := x;
                   getCurrentMarketPrice_service.last_update := t |}, w)) ∧
  (∀ n, v = getCurrentMarketPrice_service.JInt n →
     getCurrentMarketPrice_service.double_of_int n = None →
     out = (Ret {| getCurrentMarketPrice_service.market_price := 0%float;
                   getCurrentMarketPrice_service.last_update := clock w |}, w)).
Proof.
  intros Hget Hstatus Hprice Hupdate Hparse out. subst out.
  unfold getCurrentMarketPrice_service.getCurrentMarketPrice, datetime_now, try_except,
    getCurrentMarketPrice_service.try_block,
    getCurrentMarketPrice_service.raise_for_status,
    getCurrentMarketPrice_service.resp_json,
    getCurrentMarketPrice_service.subscript,
    getCurrentMarketPrice_service.float,
    getCurrentMarketPrice_service.fromisoformat,
    getCurrentMarketPrice_service.assign_market_price,
    getCurrentMarketPrice_service.assign_last_update. run.
  rewrite Hget. rewrite bool_decide_eq_true_2 by done.
  rewrite Hprice. simpl. split_and!.
  - intros x ->. simpl. rewrite Hupdate. simpl. rewrite Hparse. done.
  - intros n x -> ->. simpl. rewrite Hupdate. simpl. rewrite Hparse. done.
  - intros n -> ->. done.
Qed.

Lemma getCurrentMarketPrice_success_witness :
  let request := getCurrentMarketPrice_service.Build_GetMarketPriceRequest in
  let w := world_of stock_store in
  let members :=
    [("market_price", getCurrentMarketPrice_service.JInt (2 ^ 53 + 1));
     ("last_update", getCurrentMarketPrice_service.JString "2024-05-01T10:00:00")] in
  getCurrentMarketPrice_service.getCurrentMarketPrice
    (λ _, getCurrentMarketPrice_service.HttpResponse 200
            (Some (getCurrentMarketPrice_service.JObject members)))
    (λ _, None) (λ _, Some 1714557600) request w =
  (Ret {| getCurrentMarketPrice_service.market_price := 9007199254740992%float;
          getCurrentMarketPrice_service.last_update := 1714557600 |}, w).
Proof.
  intros request w members.
  refine (proj1 (proj2 (getCurrentMarketPrice_success
            (λ _, getCurrentMarketPrice_service.HttpResponse 200
                    (Some (getCurrentMarketPrice_service.JObject members)))
            (λ _, None) (λ _, Some 1714557600) request w 200 members
            (getCurrentMarketPrice_service.JInt (2 ^ 53 + 1))
            "2024-05-01T10:00:00" 1714557600 _ _ _ _ _))
            (2 ^ 53 + 1) 9007199254740992%float _ _);
    [done | lia | by vm_compute | by vm_compute | done | done | by vm_compute].
Defined.

(** ** deleteInventoryItem: the soft delete *)

Lemma deleteInventoryItem_existing (w : World) itemId it :
  InventoryItem_t (db w) !! itemId = Some it →
  ∃ w',
    deleteInventoryItem_service.deleteInventoryItem itemId w =
      (Ret {| deleteInventoryItem_service.success := true;
              deleteInventoryItem_service.message :=
                "Inventory item '" +:+ itemId +:+
                "' was successfully marked as inactive." |}, w') ∧
    db w' = set_InventoryItem_t
              (<[itemId := set_quantity 0 it]> (InventoryItem_t (db w))) (db w).
Proof.
  intros Hlook.
  unfold deleteInventoryItem_service.deleteInventoryItem,
    prisma.InventoryItem_find_unique, prisma.InventoryItem_update. run.
  rewrite Hlook. simpl. rewrite Hlook. simpl. eexists. split; done.
Qed.

Lemma deleteInventoryItem_missing (w : World) itemId :
  InventoryItem_t (db w) !! itemId = None →
  deleteInventoryItem_service.deleteInventoryItem itemId w =
    (Ret {| deleteInventoryItem_service.success := false;
            deleteInventoryItem_service.message :=
              "Inventory item with ID '" +:+ itemId +:+ "' not found." |},
     record_op (OpFindItem itemId) w).
Proof.
  intros Hlook.
  unfold deleteInventoryItem_service.deleteInventoryItem,
    prisma.InventoryItem_find_unique. run.
  by rewrite Hlook.
Qed.

(** X20.  [deleteInventoryItem] is a soft delete and a total one.  An item
    that exists is kept, with its name and type, and its quantity set to
    zero, every other item and table staying as it was, and the call reports
    success; for an item that does not exist the call reports the failure
    with the not-found message and changes nothing.  It never raises. *)
Theorem deleteInventoryItem_soft (w : World) (itemId : string) :
  let out := deleteInventoryItem_service.deleteInventoryItem itemId w in
  match InventoryItem_t (db w) !! itemId with
  | Some it =>
      out.1 = Ret {| deleteInventoryItem_service.success := true;
                     deleteInventoryItem_service.message :=
                       "Inventory item '" +:+ itemId +:+
                       "' was successfully marked as inactive." |} ∧
      db out.2 = set_InventoryItem_t
                   (<[itemId := {| item_name := item_name it; item_quantity := 0;
                                   item_itemType := item_itemType it |}]>
                      (InventoryItem_t (db w))) (db w)
  | None =>
      out.1 = Ret {| deleteInventoryItem_service.success := false;
                     deleteInventoryItem_service.message :=
                       "Inventory item with ID '" +:+ itemId +:+ "' not found." |} ∧
      db out.2 = db w
  end.
Proof.
  intros out. subst out.
  destruct (InventoryItem_t (db w) !! itemId) as [it|] eqn:Hlook.
  - destruct (deleteInventoryItem_existing w itemId it Hlook) as (w' & -> & Hdb).
    simpl. by rewrite Hdb.
  - by rewrite (deleteInventoryItem_missing w itemId Hlook).
Qed.

(** After the soft delete of [itemId], the item is missing or at zero. *)
Lemma deleteInventoryItem_leaves_nothing (w : World) itemId :
  ∀ it, InventoryItem_t (db (deleteInventoryItem_service.deleteInventoryItem itemId w).2)
          !! itemId = Some it → item_quantity it = 0.
Proof.
  intros it'.
  destruct (InventoryItem_t (db w) !! itemId) as [it|] eqn:Hlook.
  - destruct (deleteInventoryItem_existing w itemId it Hlook) as (w' & -> & Hdb).
    simpl. rewrite Hdb. simpl. rewrite lookup_insert_eq. by intros [= <-].
  - rewrite (deleteInventoryItem_missing w itemId Hlook). simpl. by rewrite Hlook.
Qed.

(** X21.  A soft-deleted item cannot be ordered.  After
    [deleteInventoryItem], every order that asks a positive quantity of that
    item is refused by [createOrder] with the not-enough-stock error, and
    the refusal changes nothing. *)
Theorem deleteInventoryItem_blocks_orders (w : World) (itemId customerId : string)
    (items : list OrderItem) :
  Exists (λ item, inventoryItemId item = itemId ∧ 0 < quantity item) items →
  let w' := (deleteInventoryItem_service.deleteInventoryItem itemId w).2 in
  let out := createOrder customerId items w' in
  (∃ bad, bad ∈ items ∧
          out.1 = Raise (ValueError ("Not enough stock for item ID " +:+
                                     inventoryItemId bad))) ∧
  db out.2 = db w'.
Proof.
  intros Hex w' out. subst out.
  assert (Hn : ¬ Forall (in_stock (InventoryItem_t (db w'))) items).
  { intros Hall. apply Exists_exists in Hex as (item & Hin & <- & Hpos).
    rewrite Forall_forall in Hall. specialize (Hall item Hin).
    unfold in_stock in Hall.
    destruct (InventoryItem_t (db w') !! inventoryItemId item) as [it|] eqn:Hlook; [|done].
    apply (deleteInventoryItem_leaves_nothing w) in Hlook. lia. }
  destruct (first_failure _ _ Hn) as (pre & bad & post & -> & Hpre & Hbad).
  destruct (validate_stop pre bad post w' Hpre Hbad) as (w2 & Hrun & Hdb & _).
  unfold createOrder, mbind, ST_bind. rewrite Hrun. simpl. split; [|done].
  exists bad. split; [|done]. apply elem_of_app. right. left.
Qed.

Lemma deleteInventoryItem_blocks_orders_witness :
  let w' := (deleteInventoryItem_service.deleteInventoryItem "A"
               (world_of stock_store)).2 in
  let items := [ {| inventoryItemId := "B"; quantity := 1 |};
                 {| inventoryItemId := "A"; quantity := 1 |} ] in
  let out := createOrder "cust1" items w' in
  (∃ bad, bad ∈ items ∧
          out.1 = Raise (ValueError ("Not enough stock for item ID " +:+
                                     inventoryItemId bad))) ∧
  db out.2 = db w'.
Proof.
  intros w' items.
  apply (deleteInventoryItem_blocks_orders (world_of stock_store) "A" "cust1" items).
  apply Exists_cons_tl, Exists_cons_hd. simpl. split; [done | lia].
Defined.

(** X22.  The soft delete is idempotent on the store: a second
    [deleteInventoryItem] of the same item leaves the store of the first. *)
Theorem deleteInventoryItem_idempotent (w : World) (itemId : string) :
  let w1 := (deleteInventoryItem_service.deleteInventoryItem itemId w).2 in
  db (deleteInventoryItem_service.deleteInventoryItem itemId w1).2 = db w1.
Proof.
  intros w1. subst w1.
  destruct (InventoryItem_t (db w) !! itemId) as [it|] eqn:Hlook.
  - destruct (deleteInventoryItem_existing w itemId it Hlook) as (w1 & -> & Hdb1).
    simpl.
    assert (Hlook1 : InventoryItem_t (db w1) !! itemId = Some (set_quantity 0 it))
      by (by rewrite Hdb1; simpl; rewrite lookup_insert_eq).
    destruct (deleteInventoryItem_existing w1 itemId _ Hlook1) as (w2 & -> & Hdb2).
    simpl. rewrite Hdb2, Hdb1. simpl. by rewrite insert_insert_eq.
  - rewrite (deleteInventoryItem_missing w itemId Hlook). simpl.
    rewrite deleteInventoryItem_missing by done. done.
Qed.

(** ** updateInventoryItem and getInventoryItem *)

Lemma updateInventoryItem_existing (w : World) itemId name quantity itemType it :
  InventoryItem_t (db w) !! itemId = Some it →
  ∃ w',
    updateInventoryItem_service.updateInventoryItem itemId name quantity itemType w =
      (Ret {| updateInventoryItem_service.success := true;
              updateInventoryItem_service.updatedItem :=
                {| updateInventoryItem_service.id := itemId;
                   updateInventoryItem_service.name := name;
                   updateInventoryItem_service.quantity := quantity;
                   updateInventoryItem_service.itemType := itemType |} |}, w') ∧
    db w' = set_InventoryItem_t
              (<[itemId := {| item_name := name; item_quantity := quantity;
                              item_itemType := itemType |}]>
                 (InventoryItem_t (db w))) (db w) ∧
    id_gen w' = id_gen w.
Proof.
  intros Hlook.
  unfold updateInventoryItem_service.updateInventoryItem,
    prisma.InventoryItem_find_unique, prisma_calls.InventoryItem_update_data,
    updateInventoryItem_service.UpdateInventoryItemResponse_new. run.
  rewrite Hlook. simpl. rewrite Hlook. simpl. eexists. split_and!; done.
Qed.

(** X23.  For an item that exists, [updateInventoryItem] overwrites name,
    quantity and type with the values given, whatever they are (a negative
    quantity is stored as it is), echoes them in the response, and leaves
    every other item and table as it was. *)
Theorem updateInventoryItem_overwrites (w : World) (itemId name : string)
    (quantity : Z) (itemType : ItemType) (it : InventoryItem) :
  InventoryItem_t (db w) !! itemId = Some it →
  let out := updateInventoryItem_service.updateInventoryItem itemId name quantity
               itemType w in
  out.1 = Ret {| updateInventoryItem_service.success := true;
                 updateInventoryItem_service.updatedItem :=
                   {| updateInventoryItem_service.id := itemId;
                      updateInventoryItem_service.name := name;
                      updateInventoryItem_service.quantity := quantity;
                      updateInventoryItem_service.itemType := itemType |} |} ∧
  InventoryItem_t (db out.2) !! itemId =
    Some {| item_name := name; item_quantity := quantity; item_itemType := itemType |} ∧
  (∀ other, other ≠ itemId →
            InventoryItem_t (db out.2) !! other = InventoryItem_t (db w) !! other) ∧
  db out.2 = set_InventoryItem_t (InventoryItem_t (db out.2)) (db w).
Proof.
  intros Hlook out. subst out.
  destruct (updateInventoryItem_existing w itemId name quantity itemType it Hlook)
    as (w' & -> & Hdb & _).
  simpl. rewrite Hdb. simpl. split_and!; [done | | | done].
  - by rewrite lookup_insert_eq.
  - intros other Hne. by rewrite lookup_insert_ne.
Qed.

Lemma updateInventoryItem_overwrites_witness :
  let w := world_of stock_store in
  let out := updateInventoryItem_service.updateInventoryItem "B" "band saw blade" (-4)
               RESOURCE w in
  out.1 = Ret {| updateInventoryItem_service.success := true;
                 updateInventoryItem_service.updatedItem :=
                   {| updateInventoryItem_service.id := "B";
                      updateInventoryItem_service.name := "band saw blade";
                      updateInventoryItem_service.quantity := -4;
                      updateInventoryItem_service.itemType := RESOURCE |} |} ∧
  InventoryItem_t (db out.2) !! "B" =
    Some {| item_name := "band saw blade"; item_quantity := -4;
            item_itemType := RESOURCE |} ∧
  (∀ other, other ≠ "B" →
            InventoryItem_t (db out.2) !! other = InventoryItem_t (db w) !! other) ∧
  db out.2 = set_InventoryItem_t (InventoryItem_t (db out.2)) (db w).
Proof.
  intros w.
  apply (updateInventoryItem_overwrites w "B" "band saw blade" (-4) RESOURCE
           (item "saw blade" 1)).
  by vm_compute.
Defined.

(** The log rows [find_unique] includes for an item are the rows of the log
    table that name it, in the order of the table. *)
Lemma tagged_rows (f : nat → InventoryLog → string * InventoryLog) itemId :
  (∀ i l, (f i l).2 = l) →
  ∀ logs, (filter (λ il, log_inventoryItemId il.2 = itemId) (imap f logs)).*2 =
          filter (λ l, log_inventoryItemId l = itemId) logs.
Proof.
  intros Hf logs. revert f Hf.
  induction logs as [|l logs IH]; intros f Hf; [done|].
  rewrite imap_cons, !filter_cons. rewrite Hf.
  case_decide; simpl; rewrite ?Hf, IH; try done; intros i l'; apply Hf.
Qed.

Lemma logs_of_rows gen itemId logs :
  (prisma_calls.logs_of gen itemId logs).*2 =
  filter (λ l, log_inventoryItemId l = itemId) logs.
Proof. unfold prisma_calls.logs_of. by apply tagged_rows. Qed.

(** X24.  [getInventoryItem] raises [ValueError("Item not found")] for an
    item that does not exist; for one that exists it returns its name,
    quantity and type, and as its logs the entries of the inventory log that
    belong to this item, all of them and no others, in the order they were
    written.  It never writes to the store. *)
Theorem getInventoryItem_fetches (w : World) (itemId : string) :
  let out := getInventoryItem_service.getInventoryItem itemId w in
  db out.2 = db w ∧
  match InventoryItem_t (db w) !! itemId with
  | None => out.1 = Raise (ValueError "Item not found")
  | Some it =>
      ∃ r, out.1 = Ret r ∧
           getInventoryItem_service.id r = itemId ∧
           getInventoryItem_service.name r = item_name it ∧
           getInventoryItem_service.quantity r = item_quantity it ∧
           getInventoryItem_service.itemType r = item_itemType it ∧
           (λ d, (getInventoryItem_service.timestamp d,
                  getInventoryItem_service.changeAmount d)) <$>
             getInventoryItem_service.logs r =
           (λ l, (log_timestamp l, log_changeAmount l)) <$>
             filter (λ l, log_inventoryItemId l = itemId) (InventoryLog_t (db w))
  end.
Proof.
  intros out. subst out.
  unfold getInventoryItem_service.getInventoryItem,
    prisma_calls.InventoryItem_find_unique_with_logs. run.
  destruct (InventoryItem_t (db w) !! itemId) as [it|]; simpl; [|done].
  split; [done|]. eexists. split; [done|]. simpl. split_and!; try done.
  rewrite <- logs_of_rows with (gen := id_gen w).
  rewrite <- !list_fmap_compose. done.
Qed.

Lemma getInventoryItem_existing (w : World) itemId it :
  InventoryItem_t (db w) !! itemId = Some it →
  ∃ r, (getInventoryItem_service.getInventoryItem itemId w).1 = Ret r ∧
       getInventoryItem_service.name r = item_name it ∧
       getInventoryItem_service.quantity r = item_quantity it ∧
       getInventoryItem_service.itemType r = item_itemType it ∧
       getInventoryItem_service.changeAmount <$> getInventoryItem_service.logs r =
       log_changeAmount <$>
         filter (λ l, log_inventoryItemId l = itemId) (InventoryLog_t (db w)).
Proof.
  intros Hlook.
  unfold getInventoryItem_service.getInventoryItem,
    prisma_calls.InventoryItem_find_unique_with_logs. run.
  rewrite Hlook. simpl. eexists. split; [done|]. simpl. split_and!; try done.
  rewrite <- logs_of_rows with (gen := id_gen w).
  rewrite <- !list_fmap_compose. done.
Qed.

(** X25.  Write, then read.  After [updateInventoryItem] has overwritten an
    item that exists, [getInventoryItem] returns the name, quantity and type
    that were written, and the same log entries as before the update: the
    update itself is not logged. *)
Theorem updateInventoryItem_then_get (w : World) (itemId name : string)
    (quantity : Z) (itemType : ItemType) (it : InventoryItem) :
  InventoryItem_t (db w) !! itemId = Some it →
  let w' := (updateInventoryItem_service.updateInventoryItem itemId name quantity
               itemType w).2 in
  ∃ before after,
    (getInventoryItem_service.getInventoryItem itemId w).1 = Ret before ∧
    (getInventoryItem_service.getInventoryItem itemId w').1 = Ret after ∧
    getInventoryItem_service.name after = name ∧
    getInventoryItem_service.quantity after = quantity ∧
    getInventoryItem_service.itemType after = itemType ∧
    getInventoryItem_service.changeAmount <$> getInventoryItem_service.logs after =
    getInventoryItem_service.changeAmount <$> getInventoryItem_service.logs before.
Proof.
  intros Hlook w'. subst w'.
  destruct (updateInventoryItem_existing w itemId name quantity itemType it Hlook)
    as (w' & -> & Hdb & Hgen).
  simpl.
  destruct (getInventoryItem_existing w itemId it Hlook)
    as (before & Hbefore & _ & _ & _ & Hlogs).
  assert (Hlook' : InventoryItem_t (db w') !! itemId =
            Some {| item_name := name; item_quantity := quantity;
                    item_itemType := itemType |})
    by (by rewrite Hdb; simpl; rewrite lookup_insert_eq).
  destruct (getInventoryItem_existing w' itemId _ Hlook')
    as (after & Hafter & Hname & Hq & Htype & Hlogs').
  exists before, after. split_and!; try done.
  rewrite Hlogs', Hlogs, Hdb. done.
Qed.

Lemma updateInventoryItem_then_get_witness :
  let w := world_of stock_store in
  let w' := (updateInventoryItem_service.updateInventoryItem "A" "oak plank" 12
               PRODUCT w).2 in
  ∃ before after,
    (getInventoryItem_service.getInventoryItem "A" w).1 = Ret before ∧
    (getInventoryItem_service.getInventoryItem "A" w').1 = Ret after ∧
    getInventoryItem_service.name after = "oak plank" ∧
    getInventoryItem_service.quantity after = 12 ∧
    getInventoryItem_service.itemType after = PRODUCT ∧
    getInventoryItem_service.changeAmount <$> getInventoryItem_service.logs after =
    getInventoryItem_service.changeAmount <$> getInventoryItem_service.logs before.
Proof.
  intros w.
  apply (updateInventoryItem_then_get w "A" "oak plank" 12 PRODUCT (item "oak board" 5)).
  by vm_compute.
Defined.

Lemma replay_lookup logs : ∀ inv id it,
  inv !! id = Some it →
  replay logs inv !! id =
    Some (set_quantity (item_quantity it + total_change id logs) it).
Proof.
  induction logs as [|l logs IH]; intros inv id it Hlook.
  - simpl. rewrite Hlook. destruct it. unfold set_quantity. simpl. do 2 f_equal; lia.
  - unfold replay in *. simpl.
    destruct (decide (log_inventoryItemId l = id)) as [<-|Hne].
    + erewrite IH.
      2:{ unfold apply_log. rewrite lookup_alter, decide_True by done.
          rewrite Hlook. done. }
      unfold set_quantity. simpl. do 2 f_equal; lia.
    + erewrite IH.
      2:{ unfold apply_log. rewrite lookup_alter, decide_False by done. exact Hlook. }
      unfold set_quantity. simpl. do 2 f_equal; lia.
Qed.

Lemma total_change_filter id logs :
  total_change id logs =
  foldr Z.add 0 (log_changeAmount <$> filter (λ l, log_inventoryItemId l = id) logs).
Proof.
  induction logs as [|l logs IH]; [done|].
  rewrite filter_cons. simpl. case_decide; simpl; rewrite IH; done.
Qed.

(** X26.  The history accounts for the stock.  Around a call of
    [useSparePart] for a record that exists, what [getInventoryItem] shows
    for an item changes consistently: the log entries shown after the call
    are those shown before followed by new ones, and the quantity shown
    moves by exactly the sum of the amounts of the new entries. *)
Theorem useSparePart_then_get (w : World) (recordId itemId : string)
    (parts : list PartUsage) (record : MaintenanceLog) (it : InventoryItem) :
  MaintenanceLog_t (db w) !! recordId = Some record →
  InventoryItem_t (db w) !! itemId = Some it →
  let w' := (useSparePart recordId parts w).2 in
  ∃ before after new,
    (getInventoryItem_service.getInventoryItem itemId w).1 = Ret before ∧
    (getInventoryItem_service.getInventoryItem itemId w').1 = Ret after ∧
    getInventoryItem_service.changeAmount <$> getInventoryItem_service.logs after =
      (getInventoryItem_service.changeAmount <$> getInventoryItem_service.logs before)
      ++ new ∧
    getInventoryItem_service.quantity after =
      getInventoryItem_service.quantity before + foldr Z.add 0 new.
Proof.
  intros Hrec Hlook w'. subst w'.
  destruct (useSparePart_run w recordId parts record Hrec)
    as (w' & inv' & rem & logs & Hsteps & -> & Hdb).
  simpl.
  destruct (getInventoryItem_existing w itemId it Hlook)
    as (before & Hbefore & _ & Hq & _ & Hlogs).
  pose proof (part_steps_replay _ _ _ _ _ _ Hsteps) as Hinv.
  assert (Hlook' : InventoryItem_t (db w') !! itemId =
            Some (set_quantity (item_quantity it + total_change itemId logs) it)).
  { rewrite Hdb. simpl. rewrite Hinv. by apply replay_lookup. }
  destruct (getInventoryItem_existing w' itemId _ Hlook')
    as (after & Hafter & _ & Hq' & _ & Hlogs').
  exists before, after,
    (log_changeAmount <$> filter (λ l, log_inventoryItemId l = itemId) logs).
  split_and!; [done | done | |].
  - rewrite Hlogs', Hlogs, Hdb. simpl. by rewrite filter_app, fmap_app.
  - rewrite Hq', Hq. simpl. by rewrite total_change_filter.
Qed.

Lemma useSparePart_then_get_witness :
  let w := world_of stock_store in
  let parts := [ {| partId := "A"; quantityUsed := 2 |};
                 {| partId := "B"; quantityUsed := 1 |};
                 {| partId := "A"; quantityUsed := 1 |} ] in
  let w' := (useSparePart "rec1" parts w).2 in
  ∃ before after new,
    (getInventoryItem_service.getInventoryItem "A" w).1 = Ret before ∧
    (getInventoryItem_service.getInventoryItem "A" w').1 = Ret after ∧
    getInventoryItem_service.changeAmount <$> getInventoryItem_service.logs after =
      (getInventoryItem_service.changeAmount <$> getInventoryItem_service.logs before)
      ++ new ∧
    getInventoryItem_service.quantity after =
      getInventoryItem_service.quantity before + foldr Z.add 0 new.
Proof.
  intros w parts.
  apply (useSparePart_then_get w "rec1" "A" parts
           {| ml_equipmentId := "saw1"; ml_startTime := 0; ml_endTime := 10;
              ml_completionDate := Some 10 |} (item "oak board" 5)); by vm_compute.
Defined.
